(** * useWebSocket: the resilient realtime channel of the web client

    A shallow embedding of the React hook [useWebSocket]
    (apps/web/hooks/useWebSocket.ts; in this tree its text follows the npm
    detection script in scripts/test-npm-detection.js, lines 86 to 294): its
    refs and React state become one
    record, every callback the hook installs (socket handlers, the heartbeat
    interval, the reconnect timeout, [connect], [disconnect], the mount
    effect) becomes a computation in a small state-and-output monad, and the
    browser drives the hook through a labelled event step.

    What belongs to the browser and not to the hook is modelled as far as the
    hook observes it: the table of sockets the hook created with their
    [readyState], the table of pending timeouts, the clock read by
    [Date.now()], and [JSON.parse], which is a field of the configuration. *)

From Stdlib Require Import ZArith String List Bool Lia.
From Stdlib Require Import Floats.SpecFloat.
From stdpp Require Import base tactics option list.

Import ListNotations.
Local Open Scope string_scope.
Local Open Scope list_scope.
Local Open Scope Z_scope.

(** ** JavaScript values, as far as the dispatcher inspects them *)

Module JS.

(** A value produced by [JSON.parse] (plus [undefined], which property
    reads produce).  Numbers are IEEE doubles. *)
#[warnings="-register-all"] Inductive JValue : Type :=
| JUndefined
| JNull
| JBool (b : bool)
| JNumber (x : spec_float)
| JString (s : string)
| JArray (xs : list JValue)
| JObject (fields : list (string * JValue)).

(** ToBoolean: [undefined], [null], [false], [+0], [-0], [NaN] and the empty
    string are falsy, every other value (all objects and arrays) is truthy. *)
Definition truthy (v : JValue) : bool :=
  match v with
  | JUndefined | JNull => false
  | JBool b => b
  | JNumber (S754_zero _) | JNumber S754_nan => false
  | JNumber _ => true
  | JString s => negb (String.eqb s "")
  | JArray _ | JObject _ => true
  end.

Fixpoint lookup_field (k : string) (fields : list (string * JValue)) : JValue :=
  match fields with
  | [] => JUndefined
  | (k', v) :: rest => if String.eqb k k' then v else lookup_field k rest
  end.

(** [v.k] for a key that no built-in prototype defines ([type], [data],
    [status], [message], [request_id]): a TypeError ([None]) on [null] and
    [undefined], the own property of an object, [undefined] elsewhere. *)
Definition member (v : JValue) (k : string) : option JValue :=
  match v with
  | JUndefined | JNull => None
  | JObject fields => Some (lookup_field k fields)
  | _ => Some JUndefined
  end.

(** [v?.k]: optional chaining never throws. *)
Definition opt_member (v : JValue) (k : string) : JValue :=
  match member v k with
  | Some r => r
  | None => JUndefined
  end.

(** [a || b] *)
Definition or_else (a b : JValue) : JValue := if truthy a then a else b.

(** [v === s] for a string literal [s] *)
Definition is_string (v : JValue) (s : string) : bool :=
  match v with
  | JString t => String.eqb t s
  | _ => false
  end.

(** The double 1.0 *)
Definition one : spec_float := S754_finite false 4503599627370496 (-52).

End JS.
Import JS.

(** ** The hook's state *)

(** [WebSocket.readyState] *)
Inductive ReadyState : Type := CONNECTING | OPEN | CLOSING | CLOSED.

(** The [connectionStatus] React state *)
Inductive Status : Type := connecting | connected | disconnected | reconnecting.

(** What the hook does to the outside: calls on a socket, on the timer API, on
    the console and on the callbacks of [WebSocketOptions]. *)
Inductive Effect : Type :=
| WsNew (s : nat) (url : string)
| WsSend (s : nat) (payload : string)
| WsClose (s : nat) (code : option Z)
| SetTimeout (id : nat) (delay : Z)
| ClearTimeout (id : nat)
| SetInterval (period : Z)
| ClearInterval
| ConsoleWarn (msg : string)
| ConsoleError (msg : string)
| OnConnect
| OnDisconnect
| OnError (msg : string)
| OnMessage (v : JValue)
| OnStatus (status : string) (data : JValue) (requestId : JValue).

Record State : Type := mkState {
  (* browser side *)
  sockets : list ReadyState;          (* every socket this hook constructed *)
  timeouts : list (nat * Z);          (* pending setTimeout callbacks: id, delay *)
  nextTimer : nat;
  (* refs *)
  wsRef : option nat;
  reconnectTimeoutRef : option nat;
  connectionAttemptsRef : Z;
  shouldReconnectRef : bool;
  heartbeatIntervalRef : option Z;    (* the live interval, by its next due time *)
  lastPongRef : Z;
  (* React state *)
  isConnected : bool;
  connectionStatus : Status
}.

Definition set_sockets v (st : State) : State :=
  mkState v (timeouts st) (nextTimer st) (wsRef st) (reconnectTimeoutRef st)
    (connectionAttemptsRef st) (shouldReconnectRef st) (heartbeatIntervalRef st)
    (lastPongRef st) (isConnected st) (connectionStatus st).
Definition set_timeouts v (st : State) : State :=
  mkState (sockets st) v (nextTimer st) (wsRef st) (reconnectTimeoutRef st)
    (connectionAttemptsRef st) (shouldReconnectRef st) (heartbeatIntervalRef st)
    (lastPongRef st) (isConnected st) (connectionStatus st).
Definition set_nextTimer v (st : State) : State :=
  mkState (sockets st) (timeouts st) v (wsRef st) (reconnectTimeoutRef st)
    (connectionAttemptsRef st) (shouldReconnectRef st) (heartbeatIntervalRef st)
    (lastPongRef st) (isConnected st) (connectionStatus st).
Definition set_wsRef v (st : State) : State :=
  mkState (sockets st) (timeouts st) (nextTimer st) v (reconnectTimeoutRef st)
    (connectionAttemptsRef st) (shouldReconnectRef st) (heartbeatIntervalRef st)
    (lastPongRef st) (isConnected st) (connectionStatus st).
Definition set_reconnectTimeoutRef v (st : State) : State :=
  mkState (sockets st) (timeouts st) (nextTimer st) (wsRef st) v
    (connectionAttemptsRef st) (shouldReconnectRef st) (heartbeatIntervalRef st)
    (lastPongRef st) (isConnected st) (connectionStatus st).
Definition set_connectionAttemptsRef v (st : State) : State :=
  mkState (sockets st) (timeouts st) (nextTimer st) (wsRef st) (reconnectTimeoutRef st)
    v (shouldReconnectRef st) (heartbeatIntervalRef st)
    (lastPongRef st) (isConnected st) (connectionStatus st).
Definition set_shouldReconnectRef v (st : State) : State :=
  mkState (sockets st) (timeouts st) (nextTimer st) (wsRef st) (reconnectTimeoutRef st)
    (connectionAttemptsRef st) v (heartbeatIntervalRef st)
    (lastPongRef st) (isConnected st) (connectionStatus st).
Definition set_heartbeatIntervalRef v (st : State) : State :=
  mkState (sockets st) (timeouts st) (nextTimer st) (wsRef st) (reconnectTimeoutRef st)
    (connectionAttemptsRef st) (shouldReconnectRef st) v
    (lastPongRef st) (isConnected st) (connectionStatus st).
Definition set_lastPongRef v (st : State) : State :=
  mkState (sockets st) (timeouts st) (nextTimer st) (wsRef st) (reconnectTimeoutRef st)
    (connectionAttemptsRef st) (shouldReconnectRef st) (heartbeatIntervalRef st)
    v (isConnected st) (connectionStatus st).
Definition set_isConnected v (st : State) : State :=
  mkState (sockets st) (timeouts st) (nextTimer st) (wsRef st) (reconnectTimeoutRef st)
    (connectionAttemptsRef st) (shouldReconnectRef st) (heartbeatIntervalRef st)
    (lastPongRef st) v (connectionStatus st).
Definition set_connectionStatus v (st : State) : State :=
  mkState (sockets st) (timeouts st) (nextTimer st) (wsRef st) (reconnectTimeoutRef st)
    (connectionAttemptsRef st) (shouldReconnectRef st) (heartbeatIntervalRef st)
    (lastPongRef st) (isConnected st) v.

(** ** The monad of a callback: it reads and writes the state and emits effects *)

Definition M (A : Type) : Type := State -> A * State * list Effect.

Definition ret {A} (a : A) : M A := fun st => (a, st, []).

Definition bind {A B} (m : M A) (f : A -> M B) : M B :=
  fun st =>
    let '(a, st1, out1) := m st in
    let '(b, st2, out2) := f a st1 in
    (b, st2, out1 ++ out2).

Definition get : M State := fun st => (st, st, []).
Definition modify (f : State -> State) : M unit := fun st => (tt, f st, []).
Definition emit (e : Effect) : M unit := fun st => (tt, st, [e]).
Definition when (b : bool) (m : M unit) : M unit := if b then m else ret tt.

(** A ref that holds a handle rather than [null]; a timer handle is truthy. *)
Definition is_set {A} (o : option A) : bool :=
  match o with
  | Some _ => true
  | None => false
  end.

Declare Scope hook_scope.
Delimit Scope hook_scope with hook.
Notation "x <- m ;; k" := (bind m (fun x => k))
  (at level 100, m at next level, right associativity) : hook_scope.
Notation "m ;; k" := (bind m (fun _ => k))
  (at level 100, right associativity) : hook_scope.
Local Open Scope hook_scope.

Definition run_state {A} (m : M A) (st : State) : State := snd (fst (m st)).
Definition run_out {A} (m : M A) (st : State) : list Effect := snd (m st).

(** ** Configuration: the hook's options and its environment *)

Record Config : Type := mkConfig {
  parse : string -> option JValue;   (* JSON.parse; None: it throws *)
  wsBase : option string;            (* process.env.NEXT_PUBLIC_WS_BASE *)
  projectId : string;
  ctorError : option string;         (* new WebSocket(fullUrl) throws this *)
  onMessage : bool;                  (* which optional callbacks are given *)
  onStatus : bool;
  onConnect : bool;
  onDisconnect : bool;
  onError : bool
}.

Definition maxReconnectAttempts : Z := 5.
Definition baseReconnectDelay : Z := 2000.
Definition heartbeatInterval : Z := 60000.
Definition pongTimeout : Z := 15000.

(** [Math.min(baseReconnectDelay * Math.pow(2, attempts), 30000)] *)
Definition reconnectDelay (attempts : Z) : Z :=
  Z.min (baseReconnectDelay * 2 ^ attempts) 30000.

(** ** The browser's WebSocket and timer API *)

Definition readyState (s : nat) (st : State) : option ReadyState := sockets st !! s.

(** A socket whose close event has not been delivered yet. *)
Definition live (l : list ReadyState) (s : nat) : bool :=
  match l !! s with
  | Some CONNECTING | Some OPEN | Some CLOSING => true
  | Some CLOSED | None => false
  end.

Definition unclosed (st : State) (s : nat) : bool := live (sockets st) s.

(** [wsRef.current?.readyState === WebSocket.OPEN] *)
Definition ws_is_open (st : State) : bool :=
  match wsRef st with
  | Some s =>
      match readyState s st with
      | Some OPEN => true
      | _ => false
      end
  | None => false
  end.

(** [new WebSocket(url)]: a fresh socket in state CONNECTING *)
Definition ws_new (url : string) : M nat :=
  st <- get ;;
  let s := length (sockets st) in
  modify (set_sockets (sockets st ++ [CONNECTING])) ;;
  emit (WsNew s url) ;;
  ret s.

(** [ws.close(code?)]: starts the closing handshake of a socket that is
    connecting or open, does nothing to one that is closing or closed; the
    close event comes later. *)
Definition ws_close (s : nat) (code : option Z) : M unit :=
  emit (WsClose s code) ;;
  st <- get ;;
  match readyState s st with
  | Some CONNECTING | Some OPEN => modify (set_sockets (<[s := CLOSING]> (sockets st)))
  | _ => ret tt
  end.

Definition ws_send (s : nat) (payload : string) : M unit := emit (WsSend s payload).

(** [setTimeout(callback, delay)] *)
Definition setTimeout (delay : Z) : M nat :=
  st <- get ;;
  let id := nextTimer st in
  modify (set_nextTimer (S id)) ;;
  modify (fun st => set_timeouts (timeouts st ++ [(id, delay)]) st) ;;
  emit (SetTimeout id delay) ;;
  ret id.

Definition cancel (id : nat) (ts : list (nat * Z)) : list (nat * Z) :=
  filter (fun t => negb (Nat.eqb (fst t) id)) ts.

(** [clearTimeout(id)] *)
Definition clearTimeout (id : nat) : M unit :=
  modify (fun st => set_timeouts (cancel id (timeouts st)) st) ;;
  emit (ClearTimeout id).

(** ** The hook *)

Section Hook.

Variable cfg : Config.

(** Call an optional callback: [onX?.(...)] *)
Definition callback (given : bool) (e : Effect) : M unit := when given (emit e).

Definition setIsConnected (b : bool) : M unit := modify (set_isConnected b).
Definition setConnectionStatus (s : Status) : M unit := modify (set_connectionStatus s).

(** [`${wsUrl}/api/chat/${projectId}`] with
    [wsUrl = process.env.NEXT_PUBLIC_WS_BASE || 'ws://localhost:8080'] *)
Definition fullUrl : string :=
  let wsUrl :=
    match wsBase cfg with
    | Some u => if String.eqb u "" then "ws://localhost:8080" else u
    | None => "ws://localhost:8080"
    end in
  wsUrl ++ "/api/chat/" ++ projectId cfg.

(** [startHeartbeat] (lines 124-143); [now] is the instant [setInterval] is
    called, and the interval then comes due every [heartbeatInterval]. *)
Definition startHeartbeat (now : Z) : M unit :=
  st <- get ;;
  when (is_set (heartbeatIntervalRef st)) (emit ClearInterval) ;;
  emit (SetInterval heartbeatInterval) ;;
  modify (set_heartbeatIntervalRef (Some (now + heartbeatInterval))).

(** The callback [startHeartbeat] hands to [setInterval]. *)
Definition heartbeat_tick (now : Z) : M unit :=
  st <- get ;;
  match wsRef st with
  | Some s =>
      if ws_is_open st then
        (* Check if we received a pong recently (before sending new ping) *)
        let timeSinceLastPong := now - lastPongRef st in
        if heartbeatInterval + pongTimeout <? timeSinceLastPong then
          emit (ConsoleWarn "WebSocket heartbeat timeout, reconnecting...") ;;
          ws_close s None
        else
          (* Send ping *)
          ws_send s "ping"
      else ret tt
  | None => ret tt
  end.

Definition stopHeartbeat : M unit :=
  st <- get ;;
  when (is_set (heartbeatIntervalRef st))
    (emit ClearInterval ;;
     modify (set_heartbeatIntervalRef None)).

(** [ws.onopen] (lines 170-177) *)
Definition onopen (now : Z) : M unit :=
  setIsConnected true ;;
  setConnectionStatus connected ;;
  modify (set_connectionAttemptsRef 0) ;;
  modify (set_lastPongRef now) ;;
  startHeartbeat now ;;
  callback (onConnect cfg) OnConnect.

(** The [if / else if] chain of [ws.onmessage] on the parsed frame.  [None]
    is the TypeError of reading [data.type] on [null]; once that read has
    succeeded no later read can throw, so all reads are done up front. *)
Definition dispatch (data : JValue) : option (list Effect) :=
  type ← member data "type";
  payload ← member data "data";
  status ← member data "status";
  message ← member data "message";
  Some
    (if is_string type "message" && onMessage cfg && truthy payload then
       [OnMessage payload]
     else if is_string type "preview_error" && onMessage cfg then
       [OnMessage data]
     else if is_string type "preview_success" && onMessage cfg then
       [OnMessage data]
     else if (is_string type "project_status" || is_string type "status") && onStatus cfg then
       [OnStatus "project_status"
          (or_else payload (JObject [("status", status); ("message", message)]))
          JUndefined]
     else if is_string type "act_start" && onStatus cfg then
       [OnStatus "act_start" payload (opt_member payload "request_id")]
     else if is_string type "chat_start" && onStatus cfg then
       [OnStatus "chat_start" payload (opt_member payload "request_id")]
     else if is_string type "act_complete" && onStatus cfg then
       [OnStatus "act_complete" payload (opt_member payload "request_id")]
     else if is_string type "chat_complete" && onStatus cfg then
       [OnStatus "chat_complete" payload (opt_member payload "request_id")]
     else
       []).

Fixpoint emit_all (es : list Effect) : M unit :=
  match es with
  | [] => ret tt
  | e :: rest => emit e ;; emit_all rest
  end.

(** [ws.onmessage] (lines 179-209); the [catch] covers [JSON.parse] and the
    dispatch. *)
Definition onmessage (now : Z) (frame : string) : M unit :=
  if String.eqb frame "pong" then
    modify (set_lastPongRef now)
  else
    match parse cfg frame ≫= dispatch with
    | Some calls => emit_all calls
    | None => emit (ConsoleError "Failed to parse WebSocket message:")
    end.

(** [ws.onerror] (lines 211-217) *)
Definition onerror : M unit :=
  emit (ConsoleError "WebSocket error:") ;;
  emit (ConsoleError "WebSocket readyState:") ;;
  emit (ConsoleError "WebSocket URL:") ;;
  setConnectionStatus disconnected ;;
  callback (onError cfg) (OnError ("WebSocket connection error to " ++ fullUrl)).

(** [ws.onclose] (lines 219-241); what the reconnect timeout will call is
    [connect]. *)
Definition onclose (code : Z) : M unit :=
  setIsConnected false ;;
  setConnectionStatus disconnected ;;
  stopHeartbeat ;;
  callback (onDisconnect cfg) OnDisconnect ;;
  st <- get ;;
  (* Only reconnect if we should and haven't exceeded attempts *)
  when (shouldReconnectRef st && negb (code =? 1000))
    (let attempts := connectionAttemptsRef st + 1 in
     modify (set_connectionAttemptsRef attempts) ;;
     if attempts <? maxReconnectAttempts then
       let delay := reconnectDelay attempts in
       setConnectionStatus reconnecting ;;
       id <- setTimeout delay ;;
       modify (set_reconnectTimeoutRef (Some id))
     else
       emit (ConsoleError "Max reconnection attempts reached") ;;
       setConnectionStatus disconnected).

(** [connect] (lines 153-248); the handlers it installs are the ones above. *)
Definition connect : M unit :=
  st <- get ;;
  if ws_is_open st then ret tt
  (* Don't reconnect if we're intentionally disconnecting *)
  else if negb (shouldReconnectRef st) then ret tt
  else
    setConnectionStatus
      (if connectionAttemptsRef st =? 0 then connecting else reconnecting) ;;
    match ctorError cfg with
    | None =>
        ws <- ws_new fullUrl ;;
        modify (set_wsRef (Some ws))
    | Some error =>
        emit (ConsoleError "Failed to create WebSocket connection:") ;;
        callback (onError cfg) (OnError error)
    end.

(** [disconnect] (lines 250-267) *)
Definition disconnect : M unit :=
  modify (set_shouldReconnectRef false) ;;
  st <- get ;;
  match reconnectTimeoutRef st with
  | Some id =>
      clearTimeout id ;;
      modify (set_reconnectTimeoutRef None)
  | None => ret tt
  end ;;
  stopHeartbeat ;;
  match wsRef st with
  | Some ws =>
      ws_close ws (Some 1000) ;;
      modify (set_wsRef None)
  | None => ret tt
  end ;;
  setIsConnected false ;;
  setConnectionStatus disconnected.

(** The body of [useEffect(..., [projectId])] (lines 277-285); its cleanup is
    [disconnect]. *)
Definition mount_effect : M unit :=
  modify (set_shouldReconnectRef true) ;;
  modify (set_connectionAttemptsRef 0) ;;
  connect.

(** ** Events *)

Inductive Event : Type :=
| Mount                                         (* the effect runs *)
| CallConnect                                   (* the owner calls connect() *)
| CallDisconnect                                (* disconnect(), or the cleanup *)
| SockOpen (s : nat) (now : Z)
| SockMessage (s : nat) (now : Z) (frame : string)
| SockError (s : nat)
| SockClose (s : nat) (code : Z)
| HeartbeatTick (now : Z)
| ReconnectFire (id : nat).

Definition finish (m : M unit) (st : State) : option (State * list Effect) :=
  Some (run_state m st, run_out m st).

(** One turn of the event loop.  [None]: the browser cannot deliver this
    event in this state (open on a socket that is not connecting, a message
    on one that is not open, an error or close on one already closed, a
    timer that is not pending, a tick that is not due). *)
Definition step (e : Event) (st : State) : option (State * list Effect) :=
  match e with
  | Mount => finish mount_effect st
  | CallConnect => finish connect st
  | CallDisconnect => finish disconnect st
  | SockOpen s now =>
      match readyState s st with
      | Some CONNECTING => finish (onopen now) (set_sockets (<[s := OPEN]> (sockets st)) st)
      | _ => None
      end
  | SockMessage s now frame =>
      match readyState s st with
      | Some OPEN => finish (onmessage now frame) st
      | _ => None
      end
  | SockError s =>
      if unclosed st s then finish onerror st else None
  | SockClose s code =>
      if unclosed st s then
        finish (onclose code) (set_sockets (<[s := CLOSED]> (sockets st)) st)
      else None
  | HeartbeatTick now =>
      match heartbeatIntervalRef st with
      | Some due =>
          if due =? now then
            finish (heartbeat_tick now)
              (set_heartbeatIntervalRef (Some (now + heartbeatInterval)) st)
          else None
      | None => None
      end
  | ReconnectFire id =>
      if existsb (fun t => Nat.eqb (fst t) id) (timeouts st) then
        finish connect (set_timeouts (cancel id (timeouts st)) st)
      else None
  end.

(** A run: the events in order, the effects concatenated. *)
Fixpoint exec (es : list Event) (st : State) : option (State * list Effect) :=
  match es with
  | [] => Some (st, [])
  | e :: rest =>
      match step e st with
      | Some (st1, out1) =>
          match exec rest st1 with
          | Some (st2, out2) => Some (st2, out1 ++ out2)
          | None => None
          end
      | None => None
      end
  end.

End Hook.

(** The refs and React state at the first render, which happens at [now]
    ([lastPongRef = useRef(Date.now())]). *)
Definition initial (now : Z) : State :=
  {| sockets := []; timeouts := []; nextTimer := 0%nat;
     wsRef := None; reconnectTimeoutRef := None;
     connectionAttemptsRef := 0; shouldReconnectRef := true;
     heartbeatIntervalRef := None; lastPongRef := now;
     isConnected := false; connectionStatus := disconnected |}.

(** ** Reading runs *)

(** The delays of the timeouts a callback scheduled. *)
Definition scheduled (out : list Effect) : list Z :=
  omap (fun e => match e with SetTimeout _ d => Some d | _ => None end) out.

(** The messages handed to [onError]. *)
Definition reported (out : list Effect) : list string :=
  omap (fun e => match e with OnError m => Some m | _ => None end) out.

(** What went to [console.error]. *)
Definition logged (out : list Effect) : list string :=
  omap (fun e => match e with ConsoleError m => Some m | _ => None end) out.

(** The frames sent and the close calls made on sockets. *)
Definition sent (out : list Effect) : list (nat * string) :=
  omap (fun e => match e with WsSend s p => Some (s, p) | _ => None end) out.
Definition closes (out : list Effect) : list (nat * option Z) :=
  omap (fun e => match e with WsClose s c => Some (s, c) | _ => None end) out.
Definition created (out : list Effect) : list nat :=
  omap (fun e => match e with WsNew s _ => Some s | _ => None end) out.

(** Frames arriving on socket [s], each with the time it arrives at. *)
Definition deliver (s : nat) (frames : list (Z * string)) : list Event :=
  map (fun tf => SockMessage s (fst tf) (snd tf)) frames.

Definition no_pong (frames : list (Z * string)) : bool :=
  forallb (fun tf => negb (String.eqb (snd tf) "pong")) frames.

(** At most one socket is unclosed; while one is, no reconnect timeout is
    pending; and a pending reconnect timeout is the one [reconnectTimeoutRef]
    holds. *)
Definition wf (l : list ReadyState) (ts : list (nat * Z)) (ref : option nat) : Prop :=
  (forall i j, live l i = true -> live l j = true -> i = j)
  /\ ((exists i, live l i = true) -> ts = [])
  /\ (forall t, In t ts -> ref = Some (fst t)).

Definition well_formed (st : State) : Prop :=
  wf (sockets st) (timeouts st) (reconnectTimeoutRef st).

(** Every pending reconnect timeout is the one [reconnectTimeoutRef] holds,
    so that [disconnect] can cancel it. *)
Definition timers_tracked (st : State) : Prop :=
  forall t, In t (timeouts st) -> reconnectTimeoutRef st = Some (fst t).

(** The two guards of [ws.onclose] under which it schedules a retry. *)
Definition reconnect_permitted (st : State) (code : Z) : bool :=
  (shouldReconnectRef st && negb (code =? 1000))
  && (connectionAttemptsRef st + 1 <? maxReconnectAttempts).

(** The events the browser and the hook's own timers raise, and [disconnect];
    what is left out is a [connect] from outside: the owner calling
    [connect()], or the effect running again. *)
Definition automatic (e : Event) : bool :=
  match e with
  | Mount | CallConnect => false
  | _ => true
  end.

Definition is_reconnect_fire (e : Event) : bool :=
  match e with ReconnectFire _ => true | _ => false end.

Definition is_mount (e : Event) : bool :=
  match e with Mount => true | _ => false end.

(** ** Concrete inputs used by the examples *)

Definition quote (s : string) : string :=
  (String (Ascii.ascii_of_nat 34) s ++ String (Ascii.ascii_of_nat 34) "")%string.

(** The frame [{"type":"chat_start","data":{"x":1},"requestId":"r1"}] *)
Definition chat_start_frame : string :=
  ("{" ++ quote "type" ++ ":" ++ quote "chat_start" ++ ","
       ++ quote "data" ++ ":{" ++ quote "x" ++ ":1},"
       ++ quote "requestId" ++ ":" ++ quote "r1" ++ "}")%string.

(** and what [JSON.parse] makes of it *)
Definition chat_start_envelope : JValue :=
  JObject [("type", JString "chat_start");
           ("data", JObject [("x", JNumber JS.one)]);
           ("requestId", JString "r1")].

(** The frame [{"type":"message","data":null}] and its parse *)
Definition null_message_frame : string :=
  ("{" ++ quote "type" ++ ":" ++ quote "message" ++ ","
       ++ quote "data" ++ ":null}")%string.

Definition null_message_envelope : JValue :=
  JObject [("type", JString "message"); ("data", JNull)].

(** [JSON.parse] on the frames of the examples; it throws on the rest. *)
Definition demo_parse (frame : string) : option JValue :=
  if String.eqb frame chat_start_frame then Some chat_start_envelope
  else if String.eqb frame null_message_frame then Some null_message_envelope
  else None.

(** All five callbacks given, the default address, a constructor that works. *)
Definition demo_cfg : Config :=
  {| parse := demo_parse; wsBase := None; projectId := "demo"; ctorError := None;
     onMessage := true; onStatus := true; onConnect := true;
     onDisconnect := true; onError := true |}.

(** After the mount at time 0: one socket, connecting. *)
Definition demo_connecting : State :=
  {| sockets := [CONNECTING]; timeouts := []; nextTimer := 0%nat;
     wsRef := Some 0%nat; reconnectTimeoutRef := None;
     connectionAttemptsRef := 0; shouldReconnectRef := true;
     heartbeatIntervalRef := None; lastPongRef := 0;
     isConnected := false; connectionStatus := connecting |}.

(** After that socket opened at time 1000. *)
Definition demo_open : State :=
  {| sockets := [OPEN]; timeouts := []; nextTimer := 0%nat;
     wsRef := Some 0%nat; reconnectTimeoutRef := None;
     connectionAttemptsRef := 0; shouldReconnectRef := true;
     heartbeatIntervalRef := Some 61000; lastPongRef := 1000;
     isConnected := true; connectionStatus := connected |}.

(** After the first tick, which sent a probe; the second is due at 121000. *)
Definition demo_probed : State := set_heartbeatIntervalRef (Some 121000) demo_open.

(** After the first socket closed abnormally, the owner called [connect()]
    and the second socket opened at time 1000: connected, with the retry of
    the first close still pending and held in [reconnectTimeoutRef]. *)
Definition demo_open_pending : State :=
  {| sockets := [CLOSED; OPEN]; timeouts := [(0%nat, 4000)]; nextTimer := 1%nat;
     wsRef := Some 1%nat; reconnectTimeoutRef := Some 0%nat;
     connectionAttemptsRef := 0; shouldReconnectRef := true;
     heartbeatIntervalRef := Some 61000; lastPongRef := 1000;
     isConnected := true; connectionStatus := connected |}.

(** Two abnormal closes, each followed by a [connect()] from the owner before
    its retry was due, and then an open: connected, with two retries
    pending. *)
Definition stale_timer_run : list Event :=
  [Mount; SockClose 0 1006; CallConnect; SockClose 1 1006; CallConnect;
   SockOpen 2 1000].

(** ** The rest of the hook's interface *)

(** [sendMessage] (lines 269-275); [json] is what [JSON.stringify(data)]
    returned. *)
Definition sendMessage (json : string) : M unit :=
  st <- get ;;
  if ws_is_open st then
    match wsRef st with
    | Some ws => ws_send ws json
    | None => ret tt
    end
  else
    emit (ConsoleWarn "WebSocket is not connected").

(** The [type] values the dispatcher has a branch for. *)
Definition recognised : list string :=
  ["message"; "preview_error"; "preview_success"; "project_status"; "status";
   "act_start"; "chat_start"; "act_complete"; "chat_complete"].

(** A connection that answers: from the tick due at [tick] on, every tick is
    followed, [d] ms later, by a "pong" on socket [s]. *)
Fixpoint answered (s : nat) (tick : Z) (delays : list Z) : list Event :=
  match delays with
  | [] => []
  | d :: rest =>
      HeartbeatTick tick :: SockMessage s (tick + d) "pong"
        :: answered s (tick + heartbeatInterval) rest
  end.

(** A configuration with all callbacks given whose [JSON.parse] yields [env]. *)
Definition parsing_to (env : JValue) : Config :=
  {| parse := fun _ => Some env; wsBase := None; projectId := "demo";
     ctorError := None; onMessage := true; onStatus := true; onConnect := true;
     onDisconnect := true; onError := true |}.

Definition preview_error_envelope : JValue :=
  JObject [("type", JString "preview_error"); ("error", JString "build failed")].

Definition status_envelope : JValue :=
  JObject [("type", JString "status"); ("status", JString "running")].

Definition token_usage_envelope : JValue :=
  JObject [("type", JString "token_usage")].


(** The heartbeat runs exactly while [isConnected] is true, and the status
    [connected] is shown only then. *)
Definition coherent (st : State) : Prop :=
  is_set (heartbeatIntervalRef st) = isConnected st
  /\ (connectionStatus st = connected -> isConnected st = true).

(** Something is still going on: a socket is unclosed or a reconnect is
    pending. *)
Definition active (st : State) : Prop :=
  (exists i, unclosed st i = true) \/ timeouts st <> [].

(** The attempt counter stays within the cap, and below it while something is
    still going on. *)
Definition bounded (st : State) : Prop :=
  well_formed st
  /\ 0 <= connectionAttemptsRef st <= maxReconnectAttempts
  /\ (active st -> connectionAttemptsRef st < maxReconnectAttempts).
(** ** Grouping the message list (apps/web/components/chat/MessageList.tsx) *)

Section GroupMessages.

(** The [Message] interface of [@/types/chat] is not part of this tree; what
    [groupMessages] reads of a message is taken as given: its [role], its
    [conversation_id] (a string, or absent) and
    [new Date(m.created_at).getTime()], which is a number of milliseconds or,
    for a date that does not parse, NaN ([None]). *)
Variable Message : Type.
Variable role : Message -> string.
Variable conversation_id : Message -> option string.
Variable getTime : Message -> option Z.

Definition same_conversation (a b : option string) : bool :=
  match a, b with
  | Some x, Some y => String.eqb x y
  | None, None => true
  | _, _ => false
  end.

(** [timeDiff < 120000]; a comparison with NaN is false. *)
Definition within_two_minutes (current previous : Message) : bool :=
  match getTime current, getTime previous with
  | Some c, Some p => c - p <? 120000
  | _, _ => false
  end.

(** Group if same role, same conversation, and within reasonable time *)
Definition shouldGroup (current previous : Message) : bool :=
  String.eqb (role current) (role previous)
  && same_conversation (conversation_id current) (conversation_id previous)
  && within_two_minutes current previous.

(** The [for] loop of [groupMessages] from index [i] on: [previous] is
    [messages[i - 1]], [rest] is [messages.slice(i)]. *)
Fixpoint group_loop (previous : Message) (rest : list Message)
    (currentGroup : list Message) (groups : list (list Message))
    : list (list Message) :=
  match rest with
  | [] => groups ++ [currentGroup]
  | current :: rest' =>
      if shouldGroup current previous then
        group_loop current rest' (currentGroup ++ [current]) groups
      else
        group_loop current rest' [current] (groups ++ [currentGroup])
  end.

Definition groupMessages (messages : list Message) : list (list Message) :=
  match messages with
  | [] => []
  | first :: rest => group_loop first rest [first] []
  end.

(** The same grouping read from the front, for the proofs: what is left of the
    group of [previous], and the groups after it. *)
Fixpoint groups_after (previous : Message) (rest : list Message)
    : list Message * list (list Message) :=
  match rest with
  | [] => ([], [])
  | current :: rest' =>
      let r := groups_after current rest' in
      if shouldGroup current previous then (current :: fst r, snd r)
      else ([], (current :: fst r) :: snd r)
  end.

End GroupMessages.

Arguments shouldGroup {Message}.
Arguments within_two_minutes {Message}.
Arguments group_loop {Message}.
Arguments groupMessages {Message}.
Arguments groups_after {Message}.

(** A message as far as the examples need it. *)
Record DemoMessage : Type := mkDemoMessage {
  demo_id : string;
  demo_role : string;
  demo_conversation : option string;
  demo_time : option Z
}.

Definition demo_messages : list DemoMessage :=
  [mkDemoMessage "m1" "user" (Some "c1") (Some 0);
   mkDemoMessage "m2" "assistant" (Some "c1") (Some 1000);
   mkDemoMessage "m3" "assistant" (Some "c1") (Some 61000);
   mkDemoMessage "m4" "assistant" (Some "c1") None;
   mkDemoMessage "m5" "assistant" (Some "c1") (Some 400000)].

(** ** Pinned messages (apps/web/hooks/usePinnedMessages.ts; in this tree
    scripts/test-npm-detection.js, lines 294 to 373) *)

(** SameValueZero, the equality of a [Set]: primitives by value, with NaN the
    same as NaN and [+0] the same as [-0] (doubles in canonical form); an
    array or object only with itself, and the values [JSON.parse] makes are
    all apart from each other and from any string asked for. *)
Definition same_value_zero (a b : JValue) : bool :=
  match a, b with
  | JUndefined, JUndefined | JNull, JNull => true
  | JBool x, JBool y => Bool.eqb x y
  | JNumber S754_nan, JNumber S754_nan => true
  | JNumber x, JNumber y => SFeqb x y
  | JString x, JString y => String.eqb x y
  | _, _ => false
  end.

(** A [Set] as the list of its elements in insertion order. *)
Definition set_has (l : list JValue) (v : JValue) : bool :=
  existsb (same_value_zero v) l.

Definition set_add (l : list JValue) (v : JValue) : list JValue :=
  if set_has l v then l else l ++ [v].

Definition set_delete (l : list JValue) (v : JValue) : list JValue :=
  List.filter (fun x => negb (same_value_zero x v)) l.

(** Every element was new when it was added: what every [Set] satisfies. *)
Fixpoint is_set_list (l : list JValue) : Prop :=
  match l with
  | [] => True
  | x :: rest => (forall y, In y rest -> same_value_zero y x = false) /\ is_set_list rest
  end.

(** [localStorage] as an association list, first match wins. *)
Fixpoint getItem (key : string) (storage : list (string * string)) : option string :=
  match storage with
  | [] => None
  | (k, v) :: rest => if String.eqb k key then Some v else getItem key rest
  end.

Definition setItem (key value : string) (storage : list (string * string))
    : list (string * string) :=
  (key, value) :: List.filter (fun kv => negb (String.eqb (fst kv) key)) storage.

(** The hook's state [pinnedMessageIds], together with the browser's
    [localStorage]. *)
Record PinState : Type := mkPinState {
  pinnedMessageIds : list JValue;
  localStorage : list (string * string)
}.

Section PinnedMessages.

(** [JSON.parse] ([None]: it throws), [JSON.stringify] on an array, and the
    code points a string yields when iterated. *)
Variable json_parse : string -> option JValue.
Variable json_stringify : JValue -> string.
Variable code_points : string -> list string.

(** The hook's option. *)
Variable projectId : string.

(** [new Set(iterable)]: empty for [null] and [undefined], the elements of an
    array or the code points of a string added one by one, a TypeError
    ([None]) for what is not iterable. *)
Definition new_Set (v : JValue) : option (list JValue) :=
  match v with
  | JUndefined | JNull => Some []
  | JArray xs => Some (fold_left set_add xs [])
  | JString s => Some (fold_left set_add (map JString (code_points s)) [])
  | JBool _ | JNumber _ | JObject _ => None
  end.

(** [`pinned-messages-${projectId}`] *)
Definition storageKey : string := ("pinned-messages-" ++ projectId)%string.

(** The effect that loads the pins on mount and when [projectId] changes
    (lines 309-320). *)
Definition load_pins (st : PinState) : PinState * list Effect :=
  match getItem storageKey (localStorage st) with
  | Some stored =>
      if String.eqb stored "" then (st, [])
      else
        match json_parse stored ≫= new_Set with
        | Some pinnedIds => (mkPinState pinnedIds (localStorage st), [])
        | None => (st, [ConsoleError "Failed to load pinned messages:"])
        end
  | None => (st, [])
  end.

(** [savePinnedMessages] (lines 323-326) *)
Definition savePinnedMessages (pinnedIds : list JValue)
    (storage : list (string * string)) : list (string * string) :=
  setItem storageKey (json_stringify (JArray pinnedIds)) storage.

(** [pinMessage] (lines 329-336), in an event of its own; this is also the
    body of its updater, on the state the updater is given. *)
Definition pinMessage (messageId : string) (st : PinState) : PinState :=
  let newSet := set_add (pinnedMessageIds st) (JString messageId) in
  mkPinState newSet (savePinnedMessages newSet (localStorage st)).

(** [unpinMessage] (lines 339-346), likewise *)
Definition unpinMessage (messageId : string) (st : PinState) : PinState :=
  let newSet := set_delete (pinnedMessageIds st) (JString messageId) in
  mkPinState newSet (savePinnedMessages newSet (localStorage st)).

(** [isMessagePinned] (lines 349-351) *)
Definition isMessagePinned (st : PinState) (messageId : string) : bool :=
  set_has (pinnedMessageIds st) (JString messageId).

(** [getPinnedMessages] (lines 354-356); [message_id] reads [message.id]. *)
Definition getPinnedMessages {Message : Type} (message_id : Message -> string)
    (st : PinState) (messages : list Message) : list Message :=
  List.filter (fun message => isMessagePinned st (message_id message)) messages.

(** [clearPinnedMessages] (lines 359-362), in an event of its own: the
    state is emptied at the render that follows, [localStorage] is written at
    the call. *)
Definition clearPinnedMessages (st : PinState) : PinState :=
  mkPinState [] (savePinnedMessages [] (localStorage st)).

(** [pinnedCount: pinnedMessageIds.size] *)
Definition pinnedCount (st : PinState) : nat := length (pinnedMessageIds st).

(** [handlePin] of MessageActions.tsx (lines 24-30) *)
Definition handlePin {A : Type} (pinned : bool) (messageId : string)
    (onPin onUnpin : string -> A) : A :=
  if pinned then onUnpin messageId else onPin messageId.

(** The pin button as MessageList.tsx wires it (lines 108-113): the message is
    handed over with [pinned: isMessagePinned(id)], [onPin] is [pinMessage]
    and [onUnpin] is [unpinMessage]. *)
Definition click_pin (messageId : string) (st : PinState) : PinState :=
  handlePin (isMessagePinned st messageId) messageId
    (fun id => pinMessage id st) (fun id => unpinMessage id st).

End PinnedMessages.

(** ** Calls that share an event

    [pinMessage] and [unpinMessage] hand [setPinnedMessageIds] an updater
    function.  React does not run it then: it queues it and runs the queue,
    in order, at the next render; only when nothing is queued may it run the
    updater at once, against the current state, and queue the result.  Which
    of the two it does is React's choice, so every call carries a flag for
    it and the facts proved below hold for every choice.
    [clearPinnedMessages] hands over a value, and writes [localStorage]
    itself, at the call.  The functions [pinMessage], [unpinMessage] and
    [clearPinnedMessages] above are a call in an event of its own, through
    the render that follows it. *)

(** The three functions of the hook's interface that write. *)
Inductive PinCall : Type :=
| CallPin (messageId : string)
| CallUnpin (messageId : string)
| CallClear.

(** What [setPinnedMessageIds] is handed: the updater of [pinMessage]
    (lines 330-335), the updater of [unpinMessage] (lines 340-345), or a
    value. *)
Inductive Update : Type :=
| PinUpdater (messageId : string)
| UnpinUpdater (messageId : string)
| NewValue (pinnedIds : list JValue).

(** The hook between two renders: [pinnedMessageIds] as last rendered with
    [localStorage] as it is now, and the updates queued since. *)
Record Pending : Type := mkPending {
  current : PinState;
  queue : list Update
}.

Definition is_updater (u : Update) : bool :=
  match u with
  | PinUpdater _ | UnpinUpdater _ => true
  | NewValue _ => false
  end.

Definition is_clear (c : PinCall) : bool :=
  match c with
  | CallClear => true
  | CallPin _ | CallUnpin _ => false
  end.

(** What each call hands to [setPinnedMessageIds]. *)
Definition handed (c : PinCall) : Update :=
  match c with
  | CallPin messageId => PinUpdater messageId
  | CallUnpin messageId => UnpinUpdater messageId
  | CallClear => NewValue []
  end.

Section PinnedBatches.

Variable json_stringify : JValue -> string.
Variable projectId : string.

(** One queued update run on the state before it; an updater writes
    [localStorage] as it runs. *)
Definition run_update (u : Update) (st : PinState) : PinState :=
  match u with
  | PinUpdater messageId => pinMessage json_stringify projectId messageId st
  | UnpinUpdater messageId => unpinMessage json_stringify projectId messageId st
  | NewValue pinnedIds => mkPinState pinnedIds (localStorage st)
  end.

(** [setPinnedMessageIds(u)]; [eager] is React running an updater at the
    call, which it can do only with nothing queued. *)
Definition setPinnedMessageIds (eager : bool) (u : Update) (h : Pending) : Pending :=
  if eager && is_updater u && match queue h with [] => true | _ => false end then
    let st := run_update u (current h) in
    mkPending (mkPinState (pinnedMessageIds (current h)) (localStorage st))
      [NewValue (pinnedMessageIds st)]
  else
    mkPending (current h) (queue h ++ [u]).

(** A call of [pinMessage], [unpinMessage] or [clearPinnedMessages]
    (lines 329-346 and 359-362). *)
Definition call (eager : bool) (c : PinCall) (h : Pending) : Pending :=
  match c with
  | CallPin messageId => setPinnedMessageIds eager (PinUpdater messageId) h
  | CallUnpin messageId => setPinnedMessageIds eager (UnpinUpdater messageId) h
  | CallClear =>
      let h1 := setPinnedMessageIds eager (NewValue []) h in
      mkPending
        (mkPinState (pinnedMessageIds (current h1))
           (savePinnedMessages json_stringify projectId [] (localStorage (current h1))))
        (queue h1)
  end.

(** The render: the queue is run in order. *)
Definition render (h : Pending) : PinState :=
  fold_left (fun st u => run_update u st) (queue h) (current h).

Definition calls_in_order (calls : list (bool * PinCall)) (h : Pending) : Pending :=
  fold_left (fun h c => call (fst c) (snd c) h) calls h.

(** The calls made in one event, each with React's choice for it, from a
    rendered state through the render that follows. *)
Definition event (calls : list (bool * PinCall)) (st : PinState) : PinState :=
  render (calls_in_order calls (mkPending st [])).

(** One call in an event of its own. *)
Definition perform (c : PinCall) (st : PinState) : PinState :=
  match c with
  | CallPin messageId => pinMessage json_stringify projectId messageId st
  | CallUnpin messageId => unpinMessage json_stringify projectId messageId st
  | CallClear => clearPinnedMessages json_stringify projectId st
  end.

End PinnedBatches.

(** For the examples: a [JSON.stringify] and [JSON.parse] that agree on the
    two arrays the examples store. *)
Definition demo_stringify (v : JValue) : string :=
  match v with
  | JArray [] => "[]"
  | JArray [JString "m1"] => ("[" ++ quote "m1" ++ "]")%string
  | _ => "?"
  end.

Definition demo_pins_parse (s : string) : option JValue :=
  if String.eqb s "[]" then Some (JArray [])
  else if String.eqb s ("[" ++ quote "m1" ++ "]")%string then Some (JArray [JString "m1"])
  else if String.eqb s "7" then Some (JNumber JS.one)
  else None.

Definition demo_code_points (s : string) : list string := [].

(** ** Unfolding the monad *)

Ltac hook_unfold :=
  cbv beta iota zeta delta
    [finish run_state run_out bind ret get modify emit when callback
     setIsConnected setConnectionStatus startHeartbeat stopHeartbeat
     heartbeat_tick onopen onmessage onerror onclose connect disconnect
     mount_effect ws_new ws_close ws_send setTimeout clearTimeout
     ws_is_open readyState] in *.

Ltac hook_branch :=
  match goal with
  | H : ?c = _ |- context [if ?c then _ else _] => rewrite H
  | H : ?c = _ |- context [match ?c with Some _ => _ | None => _ end] => rewrite H
  | |- context [if ?c then _ else _] => destruct c eqn:?
  | |- context [match ?c with Some _ => _ | None => _ end] => destruct c eqn:?
  | |- context [match ?c with CONNECTING => _ | OPEN => _ | CLOSING => _ | CLOSED => _ end] =>
      destruct c eqn:?
  end.

Ltac hook_run := hook_unfold; simpl; repeat (hook_branch; simpl).

(** ** Backoff *)

Lemma reconnectDelay_mono (n m : Z) :
  0 <= n <= m -> reconnectDelay n <= reconnectDelay m.
Proof.
  intros H. unfold reconnectDelay, baseReconnectDelay.
  assert (2 ^ n <= 2 ^ m) by (apply Z.pow_le_mono_r; lia).
  lia.
Qed.

(** What [ws.onclose] does to the retry bookkeeping when it may retry. *)
Lemma onclose_retry cfg st s code :
  unclosed st s = true ->
  reconnect_permitted st code = true ->
  exists st' out,
    step cfg (SockClose s code) st = Some (st', out)
    /\ connectionAttemptsRef st' = connectionAttemptsRef st + 1
    /\ scheduled out = [reconnectDelay (connectionAttemptsRef st + 1)]
    /\ timeouts st' =
         timeouts st ++ [(nextTimer st, reconnectDelay (connectionAttemptsRef st + 1))]
    /\ reconnectTimeoutRef st' = Some (nextTimer st)
    /\ connectionStatus st' = reconnecting.
Proof.
  intros Hs Hp. unfold reconnect_permitted in Hp.
  apply andb_prop in Hp as [Hg Hcap].
  unfold step. rewrite Hs.
  hook_run; eexists _, _; (split; [reflexivity |]); simpl; repeat split; reflexivity.
Qed.

(** What [ws.onclose] does once the counter reaches the cap. *)
Lemma onclose_capped cfg st s code :
  unclosed st s = true ->
  shouldReconnectRef st = true ->
  code <> 1000 ->
  (connectionAttemptsRef st + 1 <? maxReconnectAttempts) = false ->
  exists st' out,
    step cfg (SockClose s code) st = Some (st', out)
    /\ connectionAttemptsRef st' = connectionAttemptsRef st + 1
    /\ scheduled out = []
    /\ timeouts st' = timeouts st
    /\ connectionStatus st' = disconnected
    /\ reported out = []
    /\ logged out = ["Max reconnection attempts reached"].
Proof.
  intros Hs Hsr Hc Hcap. apply Z.eqb_neq in Hc.
  unfold step. rewrite Hs. hook_unfold. simpl.
  repeat (first [rewrite Hsr | rewrite Hc | hook_branch]; simpl);
    eexists _, _; (split; [reflexivity |]); simpl; repeat split; reflexivity.
Qed.

(** C3. An abnormal close (shouldReconnect set, code other than 1000) that
    raises the attempt counter to [n], with [1 <= n <= 5], schedules its retry
    after [min (2000 * 2^n) 30000] ms: exactly one retry with that delay
    while [n] is below the cap of 5, which is when the handler still permits
    a reconnection, and none at the cap; and that delay is non-decreasing in
    [n]. *)
Theorem C3_backoff_delay cfg st s code n :
  unclosed st s = true ->
  shouldReconnectRef st = true ->
  code <> 1000 ->
  n = connectionAttemptsRef st + 1 ->
  1 <= n <= 5 ->
  (exists st' out,
      step cfg (SockClose s code) st = Some (st', out)
      /\ connectionAttemptsRef st' = n
      /\ scheduled out =
           (if n <? maxReconnectAttempts then [Z.min (2000 * 2 ^ n) 30000] else [])
      /\ (forall d, In d (scheduled out) -> d = Z.min (2000 * 2 ^ n) 30000))
  /\ (forall m, n <= m <= 5 ->
        Z.min (2000 * 2 ^ n) 30000 <= Z.min (2000 * 2 ^ m) 30000).
Proof.
  intros Hs Hsr Hc -> Hn. split.
  - destruct (connectionAttemptsRef st + 1 <? maxReconnectAttempts) eqn:Hcap.
    + assert (Hp : reconnect_permitted st code = true).
      { unfold reconnect_permitted. rewrite Hsr, Hcap.
        apply Z.eqb_neq in Hc. rewrite Hc. reflexivity. }
      destruct (onclose_retry cfg st s code Hs Hp)
        as (st' & out & Hstep & Hatt & Hsch & _).
      exists st', out. repeat split; try assumption.
      rewrite Hsch. intros d [<- | []]. reflexivity.
    + destruct (onclose_capped cfg st s code Hs Hsr Hc Hcap)
        as (st' & out & Hstep & Hatt & Hsch & _).
      exists st', out. repeat split; try assumption.
      rewrite Hsch. intros d [].
  - intros m Hm. apply (reconnectDelay_mono (connectionAttemptsRef st + 1) m). lia.
Qed.

Lemma C3_backoff_delay_witness :
  exists st' out,
    step demo_cfg (SockClose 0 1006) demo_connecting = Some (st', out)
    /\ scheduled out = [4000].
Proof.
  destruct (C3_backoff_delay demo_cfg demo_connecting 0%nat 1006 1)
    as [(st' & out & Hstep & _ & Hsch & _) _].
  - reflexivity.
  - reflexivity.
  - lia.
  - reflexivity.
  - lia.
  - exists st', out. split; [exact Hstep | exact Hsch].
Defined.

(** ** The demo states are states of the hook *)

Example demo_connecting_reached :
  exec demo_cfg [Mount] (initial 0) =
    Some (demo_connecting, [WsNew 0 "ws://localhost:8080/api/chat/demo"]).
Proof. reflexivity. Qed.

Example demo_open_reached :
  exec demo_cfg [Mount; SockOpen 0 1000] (initial 0) =
    Some (demo_open,
          [WsNew 0 "ws://localhost:8080/api/chat/demo"; SetInterval 60000; OnConnect]).
Proof. reflexivity. Qed.

(** ** Dispatch *)

Lemma member_string_object v k name :
  member v k = Some (JString name) ->
  exists fields, v = JObject fields /\ lookup_field k fields = JString name.
Proof.
  destruct v; simpl; intros H; try discriminate.
  exists fields. split; [reflexivity | congruence].
Qed.

(** A frame that is not the sentinel and parses leaves the state alone and
    emits what [dispatch] says. *)
Lemma onmessage_dispatch cfg st s now frame env calls :
  readyState s st = Some OPEN ->
  frame <> "pong" ->
  parse cfg frame = Some env ->
  dispatch cfg env = Some calls ->
  step cfg (SockMessage s now frame) st = Some (st, calls).
Proof.
  intros Hs Hf Hp Hd. unfold step. rewrite Hs.
  apply String.eqb_neq in Hf.
  unfold finish, run_state, run_out, onmessage. rewrite Hf, Hp. simpl. rewrite Hd.
  clear. induction calls as [| c calls IH]; [reflexivity |].
  simpl. unfold bind, emit. simpl.
  destruct (emit_all calls st) as [[u st1] out1] eqn:E. simpl in *.
  congruence.
Qed.

(** C2 as the code has it.  A frame that parses to an envelope of type
    [act_start], [chat_start], [act_complete] or [chat_complete] makes the
    dispatcher call the status handler, and nothing else, with that event
    name, the envelope's [data], and as correlation identifier the
    [request_id] field found inside [data] ([undefined] when [data] has none);
    a top-level [requestId] of the envelope is not read. *)
Theorem C2_status_dispatch cfg st s now frame env name :
  readyState s st = Some OPEN ->
  frame <> "pong" ->
  parse cfg frame = Some env ->
  member env "type" = Some (JString name) ->
  In name ["act_start"; "chat_start"; "act_complete"; "chat_complete"] ->
  onStatus cfg = true ->
  step cfg (SockMessage s now frame) st =
    Some (st, [OnStatus name (opt_member env "data")
                 (opt_member (opt_member env "data") "request_id")]).
Proof.
  intros Hs Hf Hp Hty Hname Hon.
  apply (onmessage_dispatch cfg st s now frame env); try assumption.
  destruct (member_string_object _ _ _ Hty) as (fields & -> & Hl).
  unfold dispatch, opt_member. simpl. rewrite Hl, Hon.
  simpl in Hname.
  destruct Hname as [<- | [<- | [<- | [<- | []]]]]; reflexivity.
Qed.

Lemma C2_status_dispatch_witness :
  step demo_cfg (SockMessage 0 2000 chat_start_frame) demo_open =
    Some (demo_open,
          [OnStatus "chat_start" (JObject [("x", JNumber JS.one)]) JUndefined]).
Proof.
  apply (C2_status_dispatch demo_cfg demo_open 0%nat 2000 chat_start_frame
           chat_start_envelope "chat_start").
  - reflexivity.
  - discriminate.
  - reflexivity.
  - reflexivity.
  - simpl. auto.
  - reflexivity.
Defined.

(** C2 fails as stated: on the envelope
    [{"type":"chat_start","data":{"x":1},"requestId":"r1"}] the status handler
    is called with [undefined] as identifier, not with ["r1"]. *)
Lemma C2_requestId_counterexample :
  parse demo_cfg chat_start_frame = Some chat_start_envelope
  /\ member chat_start_envelope "requestId" = Some (JString "r1")
  /\ step demo_cfg (SockMessage 0 2000 chat_start_frame) demo_open =
       Some (demo_open,
             [OnStatus "chat_start" (JObject [("x", JNumber JS.one)]) JUndefined])
  /\ ~ In (OnStatus "chat_start" (JObject [("x", JNumber JS.one)]) (JString "r1"))
         [OnStatus "chat_start" (JObject [("x", JNumber JS.one)]) JUndefined].
Proof.
  split; [reflexivity |]. split; [reflexivity |]. split; [reflexivity |].
  intros [Hin | []]. discriminate Hin.
Qed.

(** C10. An envelope of type [message] reaches the content handler exactly
    when its [data] is truthy (and a content handler is given), which then
    gets that [data]; with [data] absent, [null] or otherwise falsy no
    handler is called at all and nothing else happens. *)
Theorem C10_message_needs_data cfg st s now frame env :
  readyState s st = Some OPEN ->
  frame <> "pong" ->
  parse cfg frame = Some env ->
  member env "type" = Some (JString "message") ->
  step cfg (SockMessage s now frame) st =
    Some (st, if onMessage cfg && truthy (opt_member env "data")
              then [OnMessage (opt_member env "data")]
              else []).
Proof.
  intros Hs Hf Hp Hty.
  apply (onmessage_dispatch cfg st s now frame env); try assumption.
  destruct (member_string_object _ _ _ Hty) as (fields & -> & Hl).
  unfold dispatch, opt_member. simpl. rewrite Hl. simpl.
  destruct (onMessage cfg); simpl; [| destruct (onStatus cfg); reflexivity].
  destruct (truthy (lookup_field "data" fields)); [reflexivity |].
  destruct (onStatus cfg); reflexivity.
Qed.

Lemma C10_message_needs_data_witness :
  step demo_cfg (SockMessage 0 2000 null_message_frame) demo_open =
    Some (demo_open, []).
Proof.
  apply (C10_message_needs_data demo_cfg demo_open 0%nat 2000 null_message_frame
           null_message_envelope).
  - reflexivity.
  - discriminate.
  - reflexivity.
  - reflexivity.
Defined.

Lemma emit_all_run calls st : emit_all calls st = (tt, st, calls).
Proof.
  induction calls as [| c calls IH]; [reflexivity |].
  simpl. unfold bind, emit. rewrite IH. reflexivity.
Qed.

Lemma dispatch_calls_handlers cfg data calls :
  dispatch cfg data = Some calls ->
  reported calls = [] /\ sent calls = [] /\ closes calls = []
  /\ scheduled calls = [] /\ created calls = [].
Proof.
  unfold dispatch. destruct (member data "type") as [ty |]; [| discriminate].
  simpl. destruct (member data "data") as [d |]; [| discriminate].
  simpl. destruct (member data "status") as [sta |]; [| discriminate].
  simpl. destruct (member data "message") as [msg |]; [| discriminate].
  simpl. intros [= <-].
  repeat match goal with
         | |- context [if ?c then _ else _] => destruct c
         end; repeat split; reflexivity.
Qed.

Lemma dispatch_reports_nothing cfg data calls :
  dispatch cfg data = Some calls -> reported calls = [].
Proof. intros H. apply (dispatch_calls_handlers cfg data calls H). Qed.

(** ** Transport errors *)

(** C8 as the code has it.  On a transport error event the hook logs the
    error, the ready-state and the address, sets the exposed connection status
    to [disconnected] and calls the error callback, when given, with an error
    that names the address.  The event does not close a socket, does not stop
    the heartbeat and schedules nothing: every other field of the state is
    left as it was.  The error callback is called on a transport error event
    and when constructing the socket fails inside [connect], and by no other
    event (not by a close that exhausts the attempts). *)
Theorem C8_transport_error cfg :
  (forall st s,
      unclosed st s = true ->
      step cfg (SockError s) st =
        Some (set_connectionStatus disconnected st,
              [ConsoleError "WebSocket error:";
               ConsoleError "WebSocket readyState:";
               ConsoleError "WebSocket URL:"]
              ++ (if onError cfg
                  then [OnError ("WebSocket connection error to " ++ fullUrl cfg)]
                  else [])))
  /\ (forall e st st' out,
        step cfg e st = Some (st', out) ->
        reported out <> [] ->
        match e with
        | SockError _ => True
        | Mount | CallConnect | ReconnectFire _ => is_set (ctorError cfg) = true
        | _ => False
        end).
Proof.
  split.
  - intros st s Hs. unfold step. rewrite Hs.
    hook_unfold. simpl. destruct (onError cfg); reflexivity.
  - intros e st st' out Hstep Hrep.
    destruct e; try exact I; revert Hstep; unfold step.
    + hook_run; intros [= <- <-]; try (exfalso; apply Hrep; reflexivity); reflexivity.
    + hook_run; intros [= <- <-]; try (exfalso; apply Hrep; reflexivity); reflexivity.
    + hook_run; intros [= <- <-]; exfalso; apply Hrep; reflexivity.
    + destruct (readyState s st) as [[] |]; try discriminate.
      hook_run; intros [= <- <-]; exfalso; apply Hrep; reflexivity.
    + destruct (readyState s st) as [[] |]; try discriminate.
      unfold finish, run_state, run_out, onmessage.
      destruct (String.eqb frame "pong").
      * intros [= <- <-]. apply Hrep. reflexivity.
      * destruct (parse cfg frame ≫= dispatch cfg) as [calls |] eqn:E.
        -- rewrite emit_all_run. intros [= <- <-]. apply Hrep.
           destruct (parse cfg frame) as [v |]; [| discriminate].
           apply (dispatch_reports_nothing cfg v). exact E.
        -- intros [= <- <-]. apply Hrep. reflexivity.
    + destruct (unclosed st s); [| discriminate].
      hook_run; intros [= <- <-]; exfalso; apply Hrep; reflexivity.
    + destruct (heartbeatIntervalRef st) as [due |]; [| discriminate].
      destruct (due =? now); [| discriminate].
      hook_run; intros [= <- <-]; exfalso; apply Hrep; reflexivity.
    + destruct (existsb _ _); [| discriminate].
      hook_run; intros [= <- <-]; try (exfalso; apply Hrep; reflexivity); reflexivity.
Qed.

Lemma C8_transport_error_witness :
  step demo_cfg (SockError 0) demo_open =
    Some (set_connectionStatus disconnected demo_open,
          [ConsoleError "WebSocket error:";
           ConsoleError "WebSocket readyState:";
           ConsoleError "WebSocket URL:";
           OnError "WebSocket connection error to ws://localhost:8080/api/chat/demo"]).
Proof.
  apply (proj1 (C8_transport_error demo_cfg) demo_open 0%nat). reflexivity.
Defined.

(** C8 fails as stated: a transport error on the open connection changes the
    exposed status from [connected] to [disconnected] and reaches the error
    callback. *)
Lemma C8_error_counterexample :
  exists st' out,
    step demo_cfg (SockError 0) demo_open = Some (st', out)
    /\ connectionStatus demo_open = connected
    /\ connectionStatus st' = disconnected
    /\ reported out = ["WebSocket connection error to ws://localhost:8080/api/chat/demo"].
Proof.
  eexists _, _. split; [reflexivity |]. repeat split.
Qed.

(** ** Runs, one event at a time *)

Lemma exec_cons cfg e es st st1 out1 :
  step cfg e st = Some (st1, out1) ->
  exec cfg (e :: es) st =
    match exec cfg es st1 with
    | Some (st2, out2) => Some (st2, out1 ++ out2)
    | None => None
    end.
Proof. intros H. simpl. rewrite H. reflexivity. Qed.

(** ** The attempt cap *)

(** C5 as the code has it.  Five consecutive abnormal closes with no open in
    between: the first four each schedule a retry (after 4, 8, 16 and 30
    seconds), the fifth raises the counter to the cap, schedules nothing,
    leaves the status at [disconnected] and writes one line, "Max
    reconnection attempts reached", to the console.  The error callback is
    not called.  Afterwards no socket event, heartbeat tick or reconnect timer
    is left that could fire. *)
Theorem C5_attempt_cap cfg t c1 c2 c3 c4 c5 :
  ctorError cfg = None ->
  c1 <> 1000 -> c2 <> 1000 -> c3 <> 1000 -> c4 <> 1000 -> c5 <> 1000 ->
  exists st out,
    exec cfg [Mount;
              SockClose 0 c1; ReconnectFire 0;
              SockClose 1 c2; ReconnectFire 1;
              SockClose 2 c3; ReconnectFire 2;
              SockClose 3 c4; ReconnectFire 3;
              SockClose 4 c5] (initial t) = Some (st, out)
    /\ created out = [0; 1; 2; 3; 4]%nat
    /\ scheduled out = [4000; 8000; 16000; 30000]
    /\ timeouts st = []
    /\ connectionAttemptsRef st = 5
    /\ connectionStatus st = disconnected
    /\ logged out = ["Max reconnection attempts reached"]
    /\ reported out = []
    /\ (forall e, automatic e = true -> e <> CallDisconnect -> step cfg e st = None).
Proof.
  intros Hctor H1 H2 H3 H4 H5.
  apply Z.eqb_neq in H1, H2, H3, H4, H5.
  destruct (onDisconnect cfg) eqn:Hdis.
  all: repeat
         (erewrite exec_cons;
          [| unfold step; hook_unfold; simpl;
             rewrite ?Hctor, ?Hdis, ?H1, ?H2, ?H3, ?H4, ?H5; simpl; reflexivity]).
  all: simpl; eexists _, _; split; [reflexivity |]; simpl.
  all: repeat (split; [reflexivity |]).
  all: intros [] Ha Hne; try discriminate Ha; try congruence; unfold step; simpl;
         try reflexivity.
  all: hook_unfold; simpl.
  all: repeat (destruct s as [| s]; simpl; try reflexivity).
Qed.

Lemma C5_attempt_cap_witness :
  exists st out,
    exec demo_cfg [Mount;
                   SockClose 0 1006; ReconnectFire 0;
                   SockClose 1 1006; ReconnectFire 1;
                   SockClose 2 1006; ReconnectFire 2;
                   SockClose 3 1006; ReconnectFire 3;
                   SockClose 4 1006] (initial 0) = Some (st, out)
    /\ logged out = ["Max reconnection attempts reached"]
    /\ reported out = [].
Proof.
  destruct (C5_attempt_cap demo_cfg 0 1006 1006 1006 1006 1006)
    as (st & out & Hrun & _ & _ & _ & _ & _ & Hlog & Hrep & _);
    [reflexivity | lia | lia | lia | lia | lia |].
  exists st, out. split; [exact Hrun |]. split; [exact Hlog | exact Hrep].
Defined.

(** C5 fails as stated: with an error callback given, five consecutive
    abnormal closes end without a single call of it, where the claim has
    exactly one. *)
Lemma C5_error_callback_counterexample :
  exists st out,
    exec demo_cfg [Mount;
                   SockClose 0 1006; ReconnectFire 0;
                   SockClose 1 1006; ReconnectFire 1;
                   SockClose 2 1006; ReconnectFire 2;
                   SockClose 3 1006; ReconnectFire 3;
                   SockClose 4 1006] (initial 0) = Some (st, out)
    /\ onError demo_cfg = true
    /\ connectionAttemptsRef st = 5
    /\ length (reported out) = 0%nat
    /\ length (reported out) <> 1%nat.
Proof.
  eexists _, _. split; [vm_compute; reflexivity |].
  repeat split. discriminate.
Qed.

(** ** Heartbeat *)

Lemma readyState_insert st s r r' :
  readyState s st = Some r ->
  readyState s (set_sockets (<[s := r']> (sockets st)) st) = Some r'.
Proof.
  unfold readyState. simpl. intros H.
  apply list_lookup_insert_eq. eapply lookup_lt_Some. exact H.
Qed.

(** The open handler: liveness is stamped and the interval is armed. *)
Lemma step_open cfg st s now :
  readyState s st = Some CONNECTING ->
  exists st' out,
    step cfg (SockOpen s now) st = Some (st', out)
    /\ wsRef st' = wsRef st
    /\ readyState s st' = Some OPEN
    /\ lastPongRef st' = now
    /\ heartbeatIntervalRef st' = Some (now + heartbeatInterval)
    /\ sent out = [] /\ closes out = [].
Proof.
  intros Hs. pose proof (readyState_insert st s CONNECTING OPEN Hs) as Hopen.
  unfold step. rewrite Hs. revert Hopen. hook_run; intros Hopen;
    eexists _, _; (split; [reflexivity |]); simpl; repeat split; assumption.
Qed.

(** One tick of the interval on the open socket the hook refers to: the
    staleness check comes first and decides between closing and probing. *)
Lemma step_tick cfg st s now :
  heartbeatIntervalRef st = Some now ->
  wsRef st = Some s ->
  readyState s st = Some OPEN ->
  step cfg (HeartbeatTick now) st =
    Some (if heartbeatInterval + pongTimeout <? now - lastPongRef st
          then (set_sockets (<[s := CLOSING]> (sockets st))
                  (set_heartbeatIntervalRef (Some (now + heartbeatInterval)) st),
                [ConsoleWarn "WebSocket heartbeat timeout, reconnecting...";
                 WsClose s None])
          else (set_heartbeatIntervalRef (Some (now + heartbeatInterval)) st,
                [WsSend s "ping"])).
Proof.
  intros Hhb Hws Hs. unfold step. rewrite Hhb, Z.eqb_refl.
  hook_unfold. simpl. rewrite Hws, Hs.
  destruct (heartbeatInterval + pongTimeout <? now - lastPongRef st); simpl.
  - rewrite Hs. reflexivity.
  - reflexivity.
Qed.

(** A frame other than the sentinel changes nothing in the state. *)
Lemma step_domain_frame cfg st s now frame :
  readyState s st = Some OPEN ->
  frame <> "pong" ->
  exists out,
    step cfg (SockMessage s now frame) st = Some (st, out)
    /\ sent out = [] /\ closes out = [].
Proof.
  intros Hs Hf. unfold step. rewrite Hs.
  apply String.eqb_neq in Hf.
  unfold finish, run_state, run_out, onmessage. rewrite Hf.
  destruct (parse cfg frame ≫= dispatch cfg) as [calls |] eqn:E.
  - rewrite emit_all_run. exists calls. split; [reflexivity |].
    destruct (parse cfg frame) as [v |]; [| discriminate].
    destruct (dispatch_calls_handlers cfg v calls E) as (_ & H1 & H2 & _).
    split; assumption.
  - eexists. split; [reflexivity |]. split; reflexivity.
Qed.

Lemma exec_domain_frames cfg st s frames :
  readyState s st = Some OPEN ->
  no_pong frames = true ->
  exists out,
    exec cfg (deliver s frames) st = Some (st, out)
    /\ sent out = [] /\ closes out = [].
Proof.
  intros Hs. induction frames as [| [now frame] frames IH]; intros Hnp.
  - exists []. repeat split.
  - simpl in Hnp. apply andb_prop in Hnp as [Hf Hnp].
    apply negb_true_iff, String.eqb_neq in Hf.
    destruct (step_domain_frame cfg st s now frame Hs Hf) as (o1 & H1 & Hs1 & Hc1).
    destruct (IH Hnp) as (o2 & H2 & Hs2 & Hc2).
    exists (o1 ++ o2). cbn [deliver map fst snd].
    rewrite (exec_cons cfg _ _ st st o1 H1). fold (deliver s frames).
    rewrite H2. split; [reflexivity |].
    unfold sent, closes in *. rewrite !omap_app, Hs1, Hs2, Hc1, Hc2.
    split; reflexivity.
Qed.

Lemma set_lastPongRef_id st : set_lastPongRef (lastPongRef st) st = st.
Proof. destruct st; reflexivity. Qed.

(** Frames of any kind, pongs included, touch the liveness stamp only, and
    move it to the arrival time of a pong. *)
Lemma exec_frames_liveness cfg st s t0 frames :
  readyState s st = Some OPEN ->
  Forall (fun tf => t0 <= fst tf) frames ->
  t0 <= lastPongRef st ->
  exists lp out,
    exec cfg (deliver s frames) st = Some (set_lastPongRef lp st, out)
    /\ t0 <= lp /\ sent out = [] /\ closes out = [].
Proof.
  intros Hs Hall. revert st Hs.
  induction Hall as [| [now frame] frames Hnow Hall IH]; intros st Hs Hlp.
  - exists (lastPongRef st), []. rewrite set_lastPongRef_id. repeat split. exact Hlp.
  - simpl in Hnow. cbn [deliver map fst snd]. fold (deliver s frames).
    destruct (String.eqb frame "pong") eqn:Hf.
    + apply String.eqb_eq in Hf. subst frame.
      assert (H1 : step cfg (SockMessage s now "pong") st
                   = Some (set_lastPongRef now st, [])).
      { unfold step. rewrite Hs. reflexivity. }
      destruct (IH (set_lastPongRef now st) Hs Hnow) as (lp & o2 & H2 & Hle & Hs2 & Hc2).
      exists lp, o2. rewrite (exec_cons cfg _ _ _ _ _ H1), H2.
      repeat split; assumption.
    + apply String.eqb_neq in Hf.
      destruct (step_domain_frame cfg st s now frame Hs Hf) as (o1 & H1 & Hs1 & Hc1).
      destruct (IH st Hs Hlp) as (lp & o2 & H2 & Hle & Hs2 & Hc2).
      exists lp, (o1 ++ o2). rewrite (exec_cons cfg _ _ _ _ _ H1), H2.
      split; [reflexivity |]. split; [exact Hle |].
      unfold sent, closes in *. rewrite !omap_app, Hs1, Hs2, Hc1, Hc2.
      split; reflexivity.
Qed.



(** C6. The open handler sets the liveness stamp to the time of the open and
    arms the interval, so the first tick comes [heartbeatInterval] later.
    Whatever frames arrive in between (the clock not running backwards), that
    tick sees an elapsed time of at most [heartbeatInterval], below
    [heartbeatInterval + pongTimeout]: it sends a "ping" and closes nothing. *)
Theorem C6_first_tick_keeps_connection cfg st0 s t0 frames :
  wsRef st0 = Some s ->
  readyState s st0 = Some CONNECTING ->
  Forall (fun tf => t0 <= fst tf) frames ->
  exists st1 out1 st2 out2 st3,
    step cfg (SockOpen s t0) st0 = Some (st1, out1)
    /\ lastPongRef st1 = t0
    /\ heartbeatIntervalRef st1 = Some (t0 + heartbeatInterval)
    /\ exec cfg (deliver s frames) st1 = Some (st2, out2)
    /\ closes (out1 ++ out2) = []
    /\ (t0 + heartbeatInterval) - lastPongRef st2 <= heartbeatInterval
    /\ heartbeatInterval < heartbeatInterval + pongTimeout
    /\ step cfg (HeartbeatTick (t0 + heartbeatInterval)) st2
         = Some (st3, [WsSend s "ping"])
    /\ readyState s st3 = Some OPEN.
Proof.
  intros Hws Hs Hall.
  destruct (step_open cfg st0 s t0 Hs)
    as (st1 & o1 & Hopen & Hws1 & Hs1 & Hlp1 & Hhb1 & _ & Hc1).
  rewrite Hws in Hws1.
  assert (Hle : t0 <= lastPongRef st1) by lia.
  destruct (exec_frames_liveness cfg st1 s t0 frames Hs1 Hall Hle)
    as (lp & o2 & Hf & Hlp & _ & Hc2).
  pose proof (step_tick cfg (set_lastPongRef lp st1) s _ Hhb1 Hws1 Hs1) as Htick.
  simpl lastPongRef in Htick.
  replace (heartbeatInterval + pongTimeout <? t0 + heartbeatInterval - lp)
    with false in Htick by (symmetry; apply Z.ltb_ge; unfold pongTimeout; lia).
  eexists st1, o1, _, o2, _.
  split; [exact Hopen |]. split; [exact Hlp1 |]. split; [exact Hhb1 |].
  split; [exact Hf |].
  split. { unfold closes in *. rewrite omap_app, Hc1, Hc2. reflexivity. }
  split. { simpl. lia. }
  split. { unfold pongTimeout. lia. }
  split; [exact Htick |]. exact Hs1.
Qed.

Lemma C6_first_tick_keeps_connection_witness :
  exists st3,
    step demo_cfg (HeartbeatTick 61000) demo_open = Some (st3, [WsSend 0 "ping"])
    /\ readyState 0 st3 = Some OPEN.
Proof.
  destruct (C6_first_tick_keeps_connection demo_cfg demo_connecting 0%nat 1000 [])
    as (st1 & o1 & st2 & o2 & st3 & H1 & _ & _ & H2 & _ & _ & _ & H3 & H4);
    [reflexivity | reflexivity | constructor |].
  vm_compute in H1. injection H1 as <- <-.
  vm_compute in H2. injection H2 as <- <-.
  exists st3. split; assumption.
Defined.

(** C9. The liveness stamp changes at two events only, an open and a frame
    equal to "pong", and both set it to the current time.  A frame that is
    not the sentinel, whatever it parses to, leaves the whole state as it
    was.  So a connection on which only such frames arrive, and whose stamp
    is older than [heartbeatInterval + pongTimeout] at a tick, is closed by
    that tick. *)
Theorem C9_liveness_updates cfg :
  (forall e st st' out,
      step cfg e st = Some (st', out) ->
      lastPongRef st' <> lastPongRef st ->
      (exists s now, e = SockOpen s now /\ lastPongRef st' = now)
      \/ (exists s now, e = SockMessage s now "pong" /\ lastPongRef st' = now))
  /\ (forall st s now,
        readyState s st = Some CONNECTING ->
        exists st' out,
          step cfg (SockOpen s now) st = Some (st', out) /\ lastPongRef st' = now)
  /\ (forall st s now,
        readyState s st = Some OPEN ->
        step cfg (SockMessage s now "pong") st = Some (set_lastPongRef now st, []))
  /\ (forall st st' s now frame out,
        frame <> "pong" ->
        step cfg (SockMessage s now frame) st = Some (st', out) ->
        st' = st)
  /\ (forall st s frames now,
        wsRef st = Some s ->
        readyState s st = Some OPEN ->
        heartbeatIntervalRef st = Some now ->
        no_pong frames = true ->
        heartbeatInterval + pongTimeout < now - lastPongRef st ->
        exists out st',
          exec cfg (deliver s frames) st = Some (st, out)
          /\ step cfg (HeartbeatTick now) st
               = Some (st', [ConsoleWarn "WebSocket heartbeat timeout, reconnecting...";
                             WsClose s None])
          /\ readyState s st' = Some CLOSING).
Proof.
  split; [| split; [| split; [| split]]].
  - intros e st st' out Hstep Hlp.
    destruct e; revert Hstep; unfold step.
    + hook_run; intros [= <- <-]; exfalso; apply Hlp; reflexivity.
    + hook_run; intros [= <- <-]; exfalso; apply Hlp; reflexivity.
    + hook_run; intros [= <- <-]; exfalso; apply Hlp; reflexivity.
    + destruct (readyState s st) as [[] |]; try discriminate.
      hook_run; intros [= <- <-]; left; exists s, now; split; reflexivity.
    + destruct (readyState s st) as [[] |] eqn:Hs; try discriminate.
      destruct (String.eqb frame "pong") eqn:Hf.
      * apply String.eqb_eq in Hf. subst frame.
        intros [= <- <-]. right. exists s, now. split; reflexivity.
      * apply String.eqb_neq in Hf.
        destruct (step_domain_frame cfg st s now frame Hs Hf) as (o & Ho & _).
        unfold step in Ho. rewrite Hs in Ho. rewrite Ho.
        intros [= <- <-]. exfalso. apply Hlp. reflexivity.
    + destruct (unclosed st s); [| discriminate].
      hook_run; intros [= <- <-]; exfalso; apply Hlp; reflexivity.
    + destruct (unclosed st s); [| discriminate].
      hook_run; intros [= <- <-]; exfalso; apply Hlp; reflexivity.
    + destruct (heartbeatIntervalRef st) as [due |]; [| discriminate].
      destruct (due =? now); [| discriminate].
      hook_run; intros [= <- <-]; exfalso; apply Hlp; reflexivity.
    + destruct (existsb _ _); [| discriminate].
      hook_run; intros [= <- <-]; exfalso; apply Hlp; reflexivity.
  - intros st s now Hs.
    destruct (step_open cfg st s now Hs) as (st' & out & H & _ & _ & Hlp & _).
    exists st', out. split; assumption.
  - intros st s now Hs. unfold step. rewrite Hs. reflexivity.
  - intros st st' s now frame out Hf Hstep.
    destruct (readyState s st) as [[] |] eqn:Hs;
      try (unfold step in Hstep; rewrite Hs in Hstep; discriminate Hstep).
    destruct (step_domain_frame cfg st s now frame Hs Hf) as (o & Ho & _).
    congruence.
  - intros st s frames now Hws Hs Hhb Hnp Hold.
    destruct (exec_domain_frames cfg st s frames Hs Hnp) as (out & Hf & _).
    pose proof (step_tick cfg st s now Hhb Hws Hs) as Htick.
    apply Z.ltb_lt in Hold. rewrite Hold in Htick.
    eexists out, _. split; [exact Hf |]. split; [exact Htick |].
    apply (readyState_insert (set_heartbeatIntervalRef _ st) s OPEN CLOSING).
    exact Hs.
Qed.

Lemma C9_liveness_updates_witness :
  exists out st',
    exec demo_cfg (deliver 0 [(70000, chat_start_frame)]) demo_probed
      = Some (demo_probed, out)
    /\ step demo_cfg (HeartbeatTick 121000) demo_probed
         = Some (st', [ConsoleWarn "WebSocket heartbeat timeout, reconnecting...";
                       WsClose 0 None])
    /\ readyState 0 st' = Some CLOSING.
Proof.
  apply (proj2 (proj2 (proj2 (proj2 (C9_liveness_updates demo_cfg))))
           demo_probed 0%nat [(70000, chat_start_frame)] 121000).
  - reflexivity.
  - reflexivity.
  - reflexivity.
  - reflexivity.
  - unfold heartbeatInterval, pongTimeout. simpl. lia.
Defined.

(** ** One socket at a time *)

Lemma live_lt l i : live l i = true -> (i < length l)%nat.
Proof.
  unfold live. destruct (l !! i) eqn:E; [| discriminate].
  intros _. eapply lookup_lt_Some. exact E.
Qed.

Lemma live_insert_ne l s r i : i <> s -> live (<[s := r]> l) i = live l i.
Proof.
  intros Hne. unfold live. rewrite list_lookup_insert_ne by congruence. reflexivity.
Qed.

Lemma live_insert_closed l s : live (<[s := CLOSED]> l) s = false.
Proof.
  unfold live. destruct (decide (s < length l)%nat) as [Hlt | Hge].
  - rewrite list_lookup_insert_eq by exact Hlt. reflexivity.
  - rewrite list_insert_ge by lia. rewrite lookup_ge_None_2 by lia. reflexivity.
Qed.

Lemma live_insert_same l s r i :
  live l s = true -> r <> CLOSED -> live (<[s := r]> l) i = live l i.
Proof.
  intros Hs Hr. destruct (decide (i = s)) as [-> | Hne].
  - rewrite Hs. unfold live.
    rewrite list_lookup_insert_eq by (apply live_lt; exact Hs).
    destruct r; congruence.
  - apply live_insert_ne. exact Hne.
Qed.

Lemma live_app_new l i :
  live (l ++ [CONNECTING]) i = true -> live l i = true \/ i = length l.
Proof.
  unfold live. destruct (decide (i < length l)%nat) as [Hlt | Hge].
  - rewrite lookup_app_l by exact Hlt. auto.
  - destruct (decide (i = length l)) as [-> | Hne]; [auto |].
    rewrite lookup_ge_None_2; [discriminate |].
    rewrite length_app. simpl. lia.
Qed.

Lemma wf_empty ref : wf [] [] ref.
Proof.
  split; [| split].
  - intros i j Hi. discriminate Hi.
  - reflexivity.
  - intros t [].
Qed.

Lemma wf_insert_same l ts ref s r :
  wf l ts ref -> live l s = true -> r <> CLOSED -> wf (<[s := r]> l) ts ref.
Proof.
  intros (H1 & H2 & H3) Hs Hr. split; [| split].
  - intros i j. rewrite !(live_insert_same l s r) by assumption. apply H1.
  - intros [i Hi]. rewrite (live_insert_same l s r) in Hi by assumption. eauto.
  - exact H3.
Qed.

Lemma wf_none_live l ts ref s :
  wf l ts ref -> live l s = true -> forall i, live (<[s := CLOSED]> l) i = false.
Proof.
  intros (H1 & _) Hs i. destruct (decide (i = s)) as [-> | Hne].
  - apply live_insert_closed.
  - rewrite live_insert_ne by exact Hne.
    destruct (live l i) eqn:Hi; [| reflexivity].
    exfalso. apply Hne. apply H1; assumption.
Qed.

Lemma wf_close l ts ref s :
  wf l ts ref -> live l s = true -> wf (<[s := CLOSED]> l) ts ref.
Proof.
  intros Hwf Hs. pose proof (wf_none_live l ts ref s Hwf Hs) as Hnone.
  destruct Hwf as (H1 & H2 & H3). split; [| split].
  - intros i j Hi. rewrite Hnone in Hi. discriminate Hi.
  - intros _. eauto.
  - exact H3.
Qed.

Lemma wf_close_schedule l ts ref s id d :
  wf l ts ref -> live l s = true ->
  wf (<[s := CLOSED]> l) (ts ++ [(id, d)]) (Some id).
Proof.
  intros Hwf Hs. pose proof (wf_none_live l ts ref s Hwf Hs) as Hnone.
  destruct Hwf as (H1 & H2 & H3). split; [| split].
  - intros i j Hi. rewrite Hnone in Hi. discriminate Hi.
  - intros [i Hi]. rewrite Hnone in Hi. discriminate Hi.
  - rewrite (H2 (ex_intro _ s Hs)). intros t [<- | []]. reflexivity.
Qed.

Lemma cancel_tracked ts id :
  (forall t, In t ts -> Some id = Some (fst t)) -> cancel id ts = [].
Proof.
  intros H. unfold cancel. induction ts as [| t ts IH]; [reflexivity |].
  cbn [filter list_filter]. 
  assert (Ht : fst t = id) by (specialize (H t (or_introl eq_refl)); congruence).
  rewrite decide_False.
  - apply IH. intros t' Hin. apply H. right. exact Hin.
  - rewrite Ht, Nat.eqb_refl. simpl. intros [].
Qed.

Lemma wf_cancel_ref l ts id :
  wf l ts (Some id) -> wf l (cancel id ts) None.
Proof.
  intros (H1 & H2 & H3). rewrite (cancel_tracked ts id H3).
  split; [exact H1 | split; [reflexivity | intros t []]].
Qed.

Lemma wf_fired l ts ref id :
  wf l ts ref ->
  existsb (fun t => Nat.eqb (fst t) id) ts = true ->
  cancel id ts = [] /\ forall i, live l i = false.
Proof.
  intros (H1 & H2 & H3) Hex.
  apply existsb_exists in Hex as (t & Hin & Hid). apply Nat.eqb_eq in Hid.
  split.
  - apply cancel_tracked. intros t' Hin'.
    rewrite <- (H3 t' Hin'), (H3 t Hin). congruence.
  - intros i. destruct (live l i) eqn:Hi; [| reflexivity].
    rewrite (H2 (ex_intro _ i Hi)) in Hin. destruct Hin.
Qed.

Lemma wf_new l ref :
  (forall i, live l i = false) -> wf (l ++ [CONNECTING]) [] ref.
Proof.
  intros Hnone. split; [| split].
  - intros i j Hi Hj.
    destruct (live_app_new l i Hi) as [Hi' | ->]; [rewrite Hnone in Hi'; discriminate |].
    destruct (live_app_new l j Hj) as [Hj' | ->]; [rewrite Hnone in Hj'; discriminate |].
    reflexivity.
  - reflexivity.
  - intros t [].
Qed.

Ltac live_tac :=
  unfold unclosed, live in *;
  repeat match goal with
         | H : ?l !! ?s = Some _ |- context [?l !! ?s] => rewrite H
         end;
  first [reflexivity | assumption].

Ltac wf_tac Hwf :=
  unfold well_formed in *; simpl in *;
  repeat match goal with
         | H : reconnectTimeoutRef _ = _ |- _ =>
             try rewrite H in Hwf; try rewrite H; clear H
         end;
  try (apply wf_insert_same; [| live_tac | discriminate]);
  first [ exact Hwf
        | apply wf_cancel_ref; exact Hwf
        | apply wf_close; [exact Hwf | live_tac]
        | eapply wf_close_schedule; [exact Hwf | live_tac] ].

Lemma step_well_formed cfg e st st' out :
  automatic e = true ->
  well_formed st ->
  step cfg e st = Some (st', out) ->
  well_formed st'.
Proof.
  intros Ha Hwf. destruct e; try discriminate Ha; clear Ha; unfold step.
  - hook_run; intros [= <- <-]; wf_tac Hwf.
  - destruct (readyState s st) as [[] |] eqn:Hs; try discriminate.
    hook_run; intros [= <- <-]; wf_tac Hwf.
  - destruct (readyState s st) as [[] |] eqn:Hs; try discriminate.
    intros Hstep.
    destruct (String.eqb frame "pong") eqn:Hf.
    + revert Hstep. unfold finish, run_state, run_out, onmessage. rewrite Hf.
      intros [= <- <-]. exact Hwf.
    + apply String.eqb_neq in Hf.
      destruct (step_domain_frame cfg st s now frame Hs Hf) as (o & Ho & _).
      unfold step in Ho. rewrite Hs in Ho. rewrite Ho in Hstep.
      injection Hstep as <- <-. exact Hwf.
  - destruct (unclosed st s) eqn:Hs; [| discriminate].
    hook_run; intros [= <- <-]; wf_tac Hwf.
  - destruct (unclosed st s) eqn:Hs; [| discriminate].
    hook_run; intros [= <- <-]; wf_tac Hwf.
  - destruct (heartbeatIntervalRef st) as [due |]; [| discriminate].
    destruct (due =? now); [| discriminate].
    hook_run; intros [= <- <-]; wf_tac Hwf.
  - destruct (existsb _ _) eqn:Hex; [| discriminate].
    destruct (wf_fired _ _ _ _ Hwf Hex) as [Hc Hnone].
    hook_run; intros [= <- <-]; unfold well_formed in *; simpl; rewrite Hc.
    all: try (apply wf_new; exact Hnone).
    all: split; [apply Hwf | split; [reflexivity | intros t []]].
Qed.

Lemma exec_well_formed cfg es st st' out :
  forallb automatic es = true ->
  well_formed st ->
  exec cfg es st = Some (st', out) ->
  well_formed st'.
Proof.
  revert st out. induction es as [| e es IH]; intros st out Ha Hwf Hrun.
  - injection Hrun as <- <-. exact Hwf.
  - simpl in Ha. apply andb_prop in Ha as [He Ha].
    simpl in Hrun.
    destruct (step cfg e st) as [[st1 o1] |] eqn:Hstep; [| discriminate].
    destruct (exec cfg es st1) as [[st2 o2] |] eqn:Hrest; [| discriminate].
    injection Hrun as <- <-.
    apply (IH st1 o2 Ha); [| exact Hrest].
    apply (step_well_formed cfg e st st1 o1 He Hwf Hstep).
Qed.

Lemma mount_well_formed cfg t st out :
  step cfg Mount (initial t) = Some (st, out) -> well_formed st.
Proof.
  unfold step. hook_run; intros [= <- <-]; unfold well_formed; simpl;
    first [ apply wf_empty
          | apply (wf_new [] None); intros i; unfold live;
            rewrite lookup_nil; reflexivity ].
Qed.

(** Every state the hook reaches from its mount by the browser's events, its
    own timers and [disconnect] is well formed. *)
Lemma reached_well_formed cfg t es st out :
  forallb automatic es = true ->
  exec cfg (Mount :: es) (initial t) = Some (st, out) ->
  well_formed st.
Proof.
  intros Ha Hrun. cbn [exec] in Hrun.
  destruct (step cfg Mount (initial t)) as [[st1 o1] |] eqn:Hstep; [| discriminate].
  destruct (exec cfg es st1) as [[st2 o2] |] eqn:Hrest; [| discriminate].
  injection Hrun as <- <-.
  apply (exec_well_formed cfg es st1 st2 o2 Ha); [| exact Hrest].
  apply (mount_well_formed cfg t st1 o1 Hstep).
Qed.

(** C7 as the code has it.  In every state reached from the mount by socket
    events, heartbeat ticks, reconnect timers and calls of [disconnect], at
    most one socket of the hook is unclosed.  [connect] itself only looks at
    whether the socket in [wsRef] is open: when it is, [connect] does
    nothing; when it is not (and shouldReconnect is set), [connect]
    constructs a new socket, whatever the state of the previous one. *)
Theorem C7_one_socket_at_a_time cfg t es st out :
  forallb automatic es = true ->
  exec cfg (Mount :: es) (initial t) = Some (st, out) ->
  (forall i j, unclosed st i = true -> unclosed st j = true -> i = j)
  /\ (forall st0, ws_is_open st0 = true -> step cfg CallConnect st0 = Some (st0, []))
  /\ (forall st0,
        ws_is_open st0 = false ->
        shouldReconnectRef st0 = true ->
        ctorError cfg = None ->
        exists st1,
          step cfg CallConnect st0
            = Some (st1, [WsNew (length (sockets st0)) (fullUrl cfg)])
          /\ sockets st1 = sockets st0 ++ [CONNECTING]
          /\ wsRef st1 = Some (length (sockets st0))).
Proof.
  intros Ha Hrun. split; [| split].
  - pose proof (reached_well_formed cfg t es st out Ha Hrun) as (H1 & _).
    exact H1.
  - intros st0 Hopen. unfold step, finish, run_state, run_out, connect, bind, get.
    simpl. rewrite Hopen. reflexivity.
  - intros st0 Hopen Hsr Hctor.
    unfold step, finish, run_state, run_out, connect, bind, get.
    simpl. rewrite Hopen, Hsr. simpl. rewrite Hctor.
    eexists. split; [reflexivity |]. split; reflexivity.
Qed.

Lemma C7_one_socket_at_a_time_witness :
  exec demo_cfg [Mount; SockOpen 0 1000; HeartbeatTick 61000; HeartbeatTick 121000]
    (initial 0)
    = Some (set_sockets [CLOSING] (set_heartbeatIntervalRef (Some 181000) demo_open),
            [WsNew 0 "ws://localhost:8080/api/chat/demo"; SetInterval 60000; OnConnect;
             WsSend 0 "ping";
             ConsoleWarn "WebSocket heartbeat timeout, reconnecting...";
             WsClose 0 None])
  /\ (forall i j,
        unclosed (set_sockets [CLOSING] (set_heartbeatIntervalRef (Some 181000) demo_open)) i
          = true ->
        unclosed (set_sockets [CLOSING] (set_heartbeatIntervalRef (Some 181000) demo_open)) j
          = true ->
        i = j)
  /\ step demo_cfg CallConnect demo_open = Some (demo_open, []).
Proof.
  split; [reflexivity |].
  destruct (C7_one_socket_at_a_time demo_cfg 0
              [SockOpen 0 1000; HeartbeatTick 61000; HeartbeatTick 121000]
              (set_sockets [CLOSING] (set_heartbeatIntervalRef (Some 181000) demo_open))
              [WsNew 0 "ws://localhost:8080/api/chat/demo"; SetInterval 60000; OnConnect;
               WsSend 0 "ping";
               ConsoleWarn "WebSocket heartbeat timeout, reconnecting...";
               WsClose 0 None])
    as (H1 & H2 & _); [reflexivity | reflexivity |].
  split; [exact H1 |]. apply H2. reflexivity.
Defined.

(** C7 fails as stated: a [connect()] while the first socket is still
    connecting constructs a second one, and so does the effect running again
    right after its cleanup, while the first socket is still closing. *)
Lemma C7_overlap_counterexample :
  (exists st out,
      exec demo_cfg [Mount; CallConnect] (initial 0) = Some (st, out)
      /\ sockets st = [CONNECTING; CONNECTING]
      /\ unclosed st 0 = true /\ unclosed st 1 = true)
  /\ (exists st out,
        exec demo_cfg [Mount; SockOpen 0 1000; CallDisconnect; Mount] (initial 0)
          = Some (st, out)
        /\ sockets st = [CLOSING; CONNECTING]
        /\ unclosed st 0 = true /\ unclosed st 1 = true).
Proof.
  split; eexists _, _; (split; [vm_compute; reflexivity |]); repeat split.
Qed.

(** ** Intentional teardown *)

(** With shouldReconnect cleared, nothing short of the effect running again
    constructs a socket or schedules a timeout; and with no timeout pending
    either, no reconnect timer can fire. *)
Lemma teardown_step cfg e st st' out :
  is_mount e = false ->
  shouldReconnectRef st = false ->
  step cfg e st = Some (st', out) ->
  shouldReconnectRef st' = false
  /\ created out = [] /\ scheduled out = []
  /\ (timeouts st = [] -> timeouts st' = [] /\ is_reconnect_fire e = false).
Proof.
  intros Ha Hsr. destruct e; try discriminate Ha; clear Ha; unfold step.
  - hook_unfold. simpl. repeat (first [rewrite Hsr | hook_branch]; simpl).
    all: intros [= <- <-]; simpl; repeat split; assumption.
  - hook_run; intros [= <- <-]; simpl; repeat split;
      match goal with H : timeouts _ = [] |- _ => rewrite H; reflexivity end.
  - destruct (readyState s st) as [[] |] eqn:Hs; try discriminate.
    hook_run; intros [= <- <-]; simpl; repeat split; assumption.
  - destruct (readyState s st) as [[] |] eqn:Hs; try discriminate.
    unfold finish, run_state, run_out, onmessage.
    destruct (String.eqb frame "pong").
    + intros [= <- <-]. simpl. repeat split; assumption.
    + destruct (parse cfg frame ≫= dispatch cfg) as [calls |] eqn:E.
      * rewrite emit_all_run. intros [= <- <-].
        destruct (parse cfg frame) as [v |]; [| discriminate].
        destruct (dispatch_calls_handlers cfg v calls E) as (_ & _ & _ & H1 & H2).
        repeat split; assumption.
      * intros [= <- <-]. repeat split; assumption.
  - destruct (unclosed st s); [| discriminate].
    hook_run; intros [= <- <-]; simpl; repeat split; assumption.
  - destruct (unclosed st s); [| discriminate].
    hook_unfold. simpl. repeat (first [rewrite Hsr | hook_branch]; simpl).
    all: intros [= <- <-]; simpl; repeat split; assumption.
  - destruct (heartbeatIntervalRef st) as [due |]; [| discriminate].
    destruct (due =? now); [| discriminate].
    hook_run; intros [= <- <-]; simpl; repeat split; assumption.
  - destruct (existsb _ _) eqn:Hex; [| discriminate].
    hook_unfold. simpl. repeat (first [rewrite Hsr | hook_branch]; simpl).
    all: intros [= <- <-]; simpl; repeat split; try assumption.
    all: match goal with H : timeouts _ = [] |- _ => rewrite H in Hex end;
      discriminate Hex.
Qed.

Lemma teardown_exec cfg es st st' out :
  forallb (fun e => negb (is_mount e)) es = true ->
  shouldReconnectRef st = false ->
  exec cfg es st = Some (st', out) ->
  created out = [] /\ scheduled out = []
  /\ (timeouts st = [] -> forallb (fun e => negb (is_reconnect_fire e)) es = true).
Proof.
  revert st out. induction es as [| e es IH]; intros st out Ha Hsr Hrun.
  - injection Hrun as <- <-. repeat split.
  - simpl in Ha. apply andb_prop in Ha as [He Ha]. apply negb_true_iff in He.
    simpl in Hrun.
    destruct (step cfg e st) as [[st1 o1] |] eqn:Hstep; [| discriminate].
    destruct (exec cfg es st1) as [[st2 o2] |] eqn:Hrest; [| discriminate].
    injection Hrun as <- <-.
    destruct (teardown_step cfg e st st1 o1 He Hsr Hstep) as (Hsr1 & Hc1 & Hs1 & Hq).
    destruct (IH st1 o2 Ha Hsr1 Hrest) as (Hc2 & Hs2 & Hfires).
    unfold created, scheduled in *. rewrite !omap_app, Hc1, Hc2, Hs1, Hs2.
    repeat split. intros Hts. destruct (Hq Hts) as [Hts1 Hfire].
    simpl. rewrite Hfire, (Hfires Hts1). reflexivity.
Qed.

Lemma automatic_no_mount es :
  forallb automatic es = true -> forallb (fun e => negb (is_mount e)) es = true.
Proof.
  induction es as [| e es IH]; [reflexivity |]. simpl.
  intros H. apply andb_prop in H as [He H]. rewrite (IH H).
  destruct e; try discriminate He; reflexivity.
Qed.

(** The hook running on its own keeps its reconnect timeouts tracked. *)
Lemma reached_timers_tracked cfg t es st out :
  forallb automatic es = true ->
  exec cfg (Mount :: es) (initial t) = Some (st, out) ->
  timers_tracked st.
Proof.
  intros Ha Hrun.
  pose proof (reached_well_formed cfg t es st out Ha Hrun) as (_ & _ & H3).
  exact H3.
Qed.

(** C4 as the code has it.  [disconnect] on a connected hook whose pending
    reconnect timeouts are all held in [reconnectTimeoutRef] clears
    shouldReconnect, cancels the pending reconnect timeout and the heartbeat
    interval and closes the socket with code 1000; afterwards, however long
    the browser goes on delivering events, no reconnect timer fires (so
    [connect] is not invoked again), no timeout is scheduled and no socket is
    constructed.
    After a [disconnect] in any state whatsoever, no run that does not mount
    the effect anew constructs a socket or schedules a timeout: a [connect]
    invoked by a timeout that was left over returns at its shouldReconnect
    guard.  A close event with code 1000 never schedules a reconnect,
    whatever shouldReconnect holds.  And in every state the hook reaches on
    its own from the mount (no [connect()] from outside) the pending
    reconnect timeouts are all held in [reconnectTimeoutRef]. *)
Theorem C4_disconnect_is_final cfg st s :
  wsRef st = Some s ->
  readyState s st = Some OPEN ->
  timers_tracked st ->
  (exists st1 out1,
      step cfg CallDisconnect st = Some (st1, out1)
      /\ shouldReconnectRef st1 = false
      /\ timeouts st1 = []
      /\ reconnectTimeoutRef st1 = None
      /\ heartbeatIntervalRef st1 = None
      /\ closes out1 = [(s, Some 1000)]
      /\ readyState s st1 = Some CLOSING
      /\ connectionStatus st1 = disconnected
      /\ (forall es' st2 out2,
            forallb automatic es' = true ->
            exec cfg es' st1 = Some (st2, out2) ->
            forallb (fun e => negb (is_reconnect_fire e)) es' = true
            /\ created out2 = [] /\ scheduled out2 = []))
  /\ (forall st0 st1 out1 es' st2 out2,
        step cfg CallDisconnect st0 = Some (st1, out1) ->
        forallb (fun e => negb (is_mount e)) es' = true ->
        exec cfg es' st1 = Some (st2, out2) ->
        shouldReconnectRef st1 = false /\ created out2 = [] /\ scheduled out2 = [])
  /\ (forall st0 s0,
        unclosed st0 s0 = true ->
        exists st1 out1,
          step cfg (SockClose s0 1000) st0 = Some (st1, out1)
          /\ scheduled out1 = [] /\ created out1 = []
          /\ timeouts st1 = timeouts st0
          /\ heartbeatIntervalRef st1 = None
          /\ connectionStatus st1 = disconnected)
  /\ (forall t es st0 out0,
        forallb automatic es = true ->
        exec cfg (Mount :: es) (initial t) = Some (st0, out0) ->
        timers_tracked st0).
Proof.
  intros Hws Hs Htr. split; [| split; [| split]].
  - assert (Hlt : (s < length (sockets st))%nat) by (eapply lookup_lt_Some; exact Hs).
    assert (Hfinal : forall st1,
               shouldReconnectRef st1 = false -> timeouts st1 = [] ->
               forall es' st2 out2,
                 forallb automatic es' = true ->
                 exec cfg es' st1 = Some (st2, out2) ->
                 forallb (fun e => negb (is_reconnect_fire e)) es' = true
                 /\ created out2 = [] /\ scheduled out2 = []).
    { intros st1 Hsr1 Hts1 es' st2 out2 Ha' Hrun'.
      destruct (teardown_exec cfg es' st1 st2 out2 (automatic_no_mount es' Ha') Hsr1 Hrun')
        as (? & ? & Hf).
      auto. }
    unfold timers_tracked in Htr.
    destruct (reconnectTimeoutRef st) as [id |] eqn:Href.
    + pose proof (cancel_tracked (timeouts st) id Htr) as Hc.
      unfold step. hook_unfold. simpl.
      destruct (heartbeatIntervalRef st) as [due |] eqn:Hhb;
        repeat (first [rewrite Hhb | hook_branch]; simpl);
        eexists _, _; (split; [reflexivity |]); simpl;
        rewrite ?Hc, ?list_lookup_insert_eq by exact Hlt;
        repeat (split; [first [reflexivity | assumption] |]);
        apply Hfinal; simpl; rewrite ?Hc; reflexivity.
    + assert (Hts : timeouts st = []).
      { destruct (timeouts st) as [| t0 ts]; [reflexivity |].
        specialize (Htr t0 (or_introl eq_refl)). discriminate Htr. }
      unfold step. hook_unfold. simpl.
      destruct (heartbeatIntervalRef st) as [due |] eqn:Hhb;
        repeat (first [rewrite Hhb | hook_branch]; simpl);
        eexists _, _; (split; [reflexivity |]); simpl;
        rewrite ?Hts, ?list_lookup_insert_eq by exact Hlt;
        repeat (split; [first [reflexivity | assumption] |]);
        apply Hfinal; simpl; rewrite ?Hts; reflexivity.
  - intros st0 st1 out1 es' st2 out2 Hd Hnm Hrun'.
    assert (Hsr1 : shouldReconnectRef st1 = false).
    { revert Hd. unfold step. hook_run; intros [= <- <-]; reflexivity. }
    destruct (teardown_exec cfg es' st1 st2 out2 Hnm Hsr1 Hrun') as (? & ? & _).
    auto.
  - intros st0 s0 Hs0. unfold step. rewrite Hs0. hook_unfold. simpl.
    destruct (heartbeatIntervalRef st0) as [due |] eqn:Hhb;
      repeat (first [rewrite Hhb | rewrite andb_false_r | hook_branch]; simpl);
      eexists _, _; (split; [reflexivity |]); simpl; repeat split;
      first [assumption | discriminate].
  - intros t es st0 out0. apply reached_timers_tracked.
Qed.

Lemma C4_disconnect_is_final_witness :
  exec demo_cfg [Mount; SockClose 0 1006; CallConnect; SockOpen 1 1000] (initial 0)
    = Some (demo_open_pending,
            [WsNew 0 "ws://localhost:8080/api/chat/demo"; OnDisconnect;
             SetTimeout 0 4000; WsNew 1 "ws://localhost:8080/api/chat/demo";
             SetInterval 60000; OnConnect])
  /\ timeouts demo_open_pending = [(0%nat, 4000)]
  /\ exists st1 out1,
       step demo_cfg CallDisconnect demo_open_pending = Some (st1, out1)
       /\ shouldReconnectRef st1 = false
       /\ timeouts st1 = []
       /\ closes out1 = [(1%nat, Some 1000)]
       /\ readyState 1 st1 = Some CLOSING.
Proof.
  split; [vm_compute; reflexivity |]. split; [reflexivity |].
  destruct (C4_disconnect_is_final demo_cfg demo_open_pending 1%nat)
    as [(st1 & out1 & H1 & H2 & H3 & _ & _ & H4 & H5 & _) _].
  - reflexivity.
  - reflexivity.
  - intros t0 [<- | []]. reflexivity.
  - exists st1, out1. repeat split; assumption.
Defined.

(** C4 fails as stated once [connect()] has been called from outside
    while a retry was pending: [ws.onclose] overwrites the handle in
    [reconnectTimeoutRef] (line 233), [disconnect] clears only the handle it
    finds there (lines 253-256), and the timeout left over then fires and
    invokes [connect]. *)
Lemma C4_stale_timer_counterexample :
  exists st out st1 out1 st2 out2,
    exec demo_cfg stale_timer_run (initial 0) = Some (st, out)
    /\ wsRef st = Some 2%nat
    /\ readyState 2 st = Some OPEN
    /\ isConnected st = true
    /\ connectionStatus st = connected
    /\ timeouts st = [(0%nat, 4000); (1%nat, 8000)]
    /\ reconnectTimeoutRef st = Some 1%nat
    /\ ~ timers_tracked st
    /\ step demo_cfg CallDisconnect st = Some (st1, out1)
    /\ out1 = [ClearTimeout 1; ClearInterval; WsClose 2 (Some 1000)]
    /\ timeouts st1 = [(0%nat, 4000)]
    /\ step demo_cfg (ReconnectFire 0) st1 = Some (st2, out2)
    /\ is_reconnect_fire (ReconnectFire 0) = true.
Proof.
  eexists _, _, _, _, _, _.
  split; [vm_compute; reflexivity |].
  repeat (split; [first [reflexivity | vm_compute; reflexivity] |]).
  split.
  - intros H. specialize (H (0%nat, 4000) (or_introl eq_refl)). discriminate H.
  - repeat (split; [vm_compute; reflexivity |]). reflexivity.
Qed.

(** ** The other branches of the dispatcher *)

(** X1. A frame of type [preview_error] or [preview_success] hands the content
    handler the whole envelope, not its [data], and calls nothing else. *)
Theorem preview_forwards_envelope cfg st s now frame env name :
  readyState s st = Some OPEN ->
  frame <> "pong" ->
  parse cfg frame = Some env ->
  member env "type" = Some (JString name) ->
  In name ["preview_error"; "preview_success"] ->
  onMessage cfg = true ->
  step cfg (SockMessage s now frame) st = Some (st, [OnMessage env]).
Proof.
  intros Hs Hf Hp Hty Hname Hon.
  apply (onmessage_dispatch cfg st s now frame env); try assumption.
  destruct (member_string_object _ _ _ Hty) as (fields & -> & Hl).
  unfold dispatch. simpl. rewrite Hl, Hon.
  simpl in Hname. destruct Hname as [<- | [<- | []]]; reflexivity.
Qed.

Lemma preview_forwards_envelope_witness :
  step (parsing_to preview_error_envelope) (SockMessage 0 2000 "{}") demo_open
    = Some (demo_open, [OnMessage preview_error_envelope]).
Proof.
  apply (preview_forwards_envelope (parsing_to preview_error_envelope) demo_open
           0%nat 2000 "{}" preview_error_envelope "preview_error").
  - reflexivity.
  - discriminate.
  - reflexivity.
  - reflexivity.
  - simpl. auto.
  - reflexivity.
Defined.

(** X2. A frame of type [project_status] or [status] calls the status handler
    under the one event name [project_status], with two arguments only: the
    envelope's [data] when that is truthy, and otherwise an object built from
    the envelope's own [status] and [message] fields. *)
Theorem project_status_payload cfg st s now frame env name :
  readyState s st = Some OPEN ->
  frame <> "pong" ->
  parse cfg frame = Some env ->
  member env "type" = Some (JString name) ->
  In name ["project_status"; "status"] ->
  onStatus cfg = true ->
  step cfg (SockMessage s now frame) st =
    Some (st, [OnStatus "project_status"
                 (if truthy (opt_member env "data")
                  then opt_member env "data"
                  else JObject [("status", opt_member env "status");
                                ("message", opt_member env "message")])
                 JUndefined]).
Proof.
  intros Hs Hf Hp Hty Hname Hon.
  apply (onmessage_dispatch cfg st s now frame env); try assumption.
  destruct (member_string_object _ _ _ Hty) as (fields & -> & Hl).
  unfold dispatch, opt_member, or_else. simpl. rewrite Hl, Hon.
  simpl in Hname. destruct Hname as [<- | [<- | []]]; simpl;
    destruct (onMessage cfg); reflexivity.
Qed.

Lemma project_status_payload_witness :
  step (parsing_to status_envelope) (SockMessage 0 2000 "{}") demo_open
    = Some (demo_open,
            [OnStatus "project_status"
               (JObject [("status", JString "running"); ("message", JUndefined)])
               JUndefined]).
Proof.
  apply (project_status_payload (parsing_to status_envelope) demo_open
           0%nat 2000 "{}" status_envelope "status").
  - reflexivity.
  - discriminate.
  - reflexivity.
  - reflexivity.
  - simpl. auto.
  - reflexivity.
Defined.

(** X3. What the dispatcher has no branch for is dropped without a trace: a
    frame that parses to anything but [null] and whose [type] is none of the
    nine recognised strings (not a string at all, or missing) calls no
    handler, logs nothing and leaves the state as it was; and so does every
    such frame when neither handler is given. *)
Theorem unrecognised_frame_ignored cfg st s now frame env ty :
  readyState s st = Some OPEN ->
  frame <> "pong" ->
  parse cfg frame = Some env ->
  member env "type" = Some ty ->
  (forall name, In name recognised -> is_string ty name = false)
  \/ (onMessage cfg = false /\ onStatus cfg = false) ->
  step cfg (SockMessage s now frame) st = Some (st, []).
Proof.
  intros Hs Hf Hp Hty Hcase.
  apply (onmessage_dispatch cfg st s now frame env); try assumption.
  assert (Hm : forall k, exists v, member env k = Some v).
  { intros k. destruct env; simpl in *; try discriminate; eauto. }
  unfold dispatch. rewrite Hty. simpl.
  destruct (Hm "data") as (d & ->), (Hm "status") as (sta & ->),
    (Hm "message") as (msg & ->). simpl.
  destruct Hcase as [Hnone | [Hm1 Hm2]].
  - unfold recognised in Hnone.
    rewrite !Hnone by (simpl; auto 10). reflexivity.
  - rewrite Hm1, Hm2. rewrite !andb_false_r. reflexivity.
Qed.

Lemma unrecognised_frame_ignored_witness :
  step (parsing_to token_usage_envelope) (SockMessage 0 2000 "{}") demo_open
    = Some (demo_open, []).
Proof.
  apply (unrecognised_frame_ignored (parsing_to token_usage_envelope) demo_open
           0%nat 2000 "{}" token_usage_envelope (JString "token_usage")).
  - reflexivity.
  - discriminate.
  - reflexivity.
  - reflexivity.
  - left. intros name Hin. simpl in Hin.
    repeat (destruct Hin as [<- | Hin]; [reflexivity |]). destruct Hin.
Defined.

(** X4. A frame that is not JSON, or that is the JSON text [null], is reported
    by one line on the console and dropped: no handler is called, the socket
    is not closed, the liveness stamp and the rest of the state stay as they
    were. *)
Theorem bad_frame_logged_and_dropped cfg st s now frame :
  readyState s st = Some OPEN ->
  frame <> "pong" ->
  parse cfg frame = None \/ parse cfg frame = Some JNull ->
  step cfg (SockMessage s now frame) st =
    Some (st, [ConsoleError "Failed to parse WebSocket message:"]).
Proof.
  intros Hs Hf Hp. unfold step. rewrite Hs.
  apply String.eqb_neq in Hf.
  unfold finish, run_state, run_out, onmessage. rewrite Hf.
  destruct Hp as [-> | ->]; reflexivity.
Qed.

Lemma bad_frame_logged_and_dropped_witness :
  step demo_cfg (SockMessage 0 2000 "not json") demo_open =
    Some (demo_open, [ConsoleError "Failed to parse WebSocket message:"]).
Proof.
  apply (bad_frame_logged_and_dropped demo_cfg demo_open 0%nat 2000 "not json").
  - reflexivity.
  - discriminate.
  - left. reflexivity.
Defined.

(** ** Invariants of every run *)

(** A property of states kept by every permitted step, and a property of
    outputs that every such step's output has and that concatenation keeps,
    hold of a whole run. *)
Lemma exec_invariant cfg (ok : Event -> bool)
    (P : State -> Prop) (Q : list Effect -> Prop) :
  Q [] ->
  (forall a b, Q a -> Q b -> Q (a ++ b)) ->
  (forall e st st' out,
      ok e = true -> P st -> step cfg e st = Some (st', out) -> P st' /\ Q out) ->
  forall es st st' out,
    forallb ok es = true -> P st -> exec cfg es st = Some (st', out) ->
    P st' /\ Q out.
Proof.
  intros Hnil Happ Hstep es.
  induction es as [| e es IH]; intros st st' out Hok HP Hrun.
  - injection Hrun as <- <-. auto.
  - simpl in Hok. apply andb_prop in Hok as [He Hok].
    cbn [exec] in Hrun.
    destruct (step cfg e st) as [[st1 o1] |] eqn:H1; [| discriminate].
    destruct (exec cfg es st1) as [[st2 o2] |] eqn:H2; [| discriminate].
    injection Hrun as <- <-.
    destruct (Hstep e st st1 o1 He HP H1) as [HP1 HQ1].
    destruct (IH st1 st2 o2 Hok HP1 H2) as [HP2 HQ2].
    auto.
Qed.

Lemma forallb_any {A} (l : list A) : forallb (fun _ => true) l = true.
Proof. induction l; simpl; auto. Qed.

Lemma step_coherent cfg e st st' out :
  coherent st -> step cfg e st = Some (st', out) -> coherent st'.
Proof.
  intros [Hhb Hst]. unfold coherent. destruct e; unfold step.
  - hook_run; intros [= <- <-]; simpl; split; first [reflexivity | assumption | discriminate | congruence].
  - hook_run; intros [= <- <-]; simpl; split; first [reflexivity | assumption | discriminate | congruence].
  - hook_run; intros [= <- <-]; simpl; split; first [reflexivity | assumption | discriminate | congruence].
  - destruct (readyState s st) as [[] |]; try discriminate.
    hook_run; intros [= <- <-]; simpl; split; first [reflexivity | assumption | discriminate | congruence].
  - destruct (readyState s st) as [[] |] eqn:Hs; try discriminate.
    intros Hstep.
    destruct (String.eqb frame "pong") eqn:Hf.
    + revert Hstep. unfold finish, run_state, run_out, onmessage. rewrite Hf.
      intros [= <- <-]. simpl. auto.
    + apply String.eqb_neq in Hf.
      destruct (step_domain_frame cfg st s now frame Hs Hf) as (o & Ho & _).
      unfold step in Ho. rewrite Hs in Ho. rewrite Ho in Hstep.
      injection Hstep as <- <-. auto.
  - destruct (unclosed st s); [| discriminate].
    hook_run; intros [= <- <-]; simpl; split; first [reflexivity | assumption | discriminate | congruence].
  - destruct (unclosed st s); [| discriminate].
    hook_run; intros [= <- <-]; simpl; split; first [reflexivity | assumption | discriminate | congruence].
  - destruct (heartbeatIntervalRef st) as [due |] eqn:Hdue; [| discriminate].
    destruct (due =? now); [| discriminate].
    hook_run; intros [= <- <-]; simpl; split; first [reflexivity | assumption | discriminate | congruence].
  - destruct (existsb _ _); [| discriminate].
    hook_run; intros [= <- <-]; simpl; split; first [reflexivity | assumption | discriminate | congruence].
Qed.

(** X5. In every state of every run, whoever calls [connect] and
    [disconnect] and whatever the sockets do: the heartbeat interval is armed
    exactly while [isConnected] is true, and the status [connected] is only
    ever shown while [isConnected] is true. *)
Theorem status_agrees_with_isConnected cfg t es st out :
  exec cfg es (initial t) = Some (st, out) ->
  is_set (heartbeatIntervalRef st) = isConnected st
  /\ (connectionStatus st = connected -> isConnected st = true).
Proof.
  intros Hrun.
  destruct (exec_invariant cfg (fun _ => true) coherent (fun _ => True) I
              (fun _ _ _ _ => I)
              (fun e st0 st1 o _ Hc Hs => conj (step_coherent cfg e st0 st1 o Hc Hs) I)
              es (initial t) st out (forallb_any es)) as [H _].
  - split; [reflexivity | discriminate].
  - exact Hrun.
  - exact H.
Qed.

Lemma status_agrees_with_isConnected_witness :
  is_set (heartbeatIntervalRef (set_connectionStatus disconnected demo_open))
    = isConnected (set_connectionStatus disconnected demo_open).
Proof.
  exact (proj1 (status_agrees_with_isConnected demo_cfg 0
                  [Mount; SockOpen 0 1000; SockError 0]
                  (set_connectionStatus disconnected demo_open)
                  [WsNew 0 "ws://localhost:8080/api/chat/demo"; SetInterval 60000;
                   OnConnect;
                   ConsoleError "WebSocket error:";
                   ConsoleError "WebSocket readyState:";
                   ConsoleError "WebSocket URL:";
                   OnError "WebSocket connection error to ws://localhost:8080/api/chat/demo"]
                  eq_refl)).
Defined.

Lemma reconnectDelay_bounds n : 1 <= n -> 4000 <= reconnectDelay n <= 30000.
Proof.
  intros Hn. unfold reconnectDelay, baseReconnectDelay.
  assert (2 ^ 1 <= 2 ^ n) by (apply Z.pow_le_mono_r; lia).
  change (2 ^ 1) with 2 in *. lia.
Qed.

Lemma step_delay_bounds cfg e st st' out :
  0 <= connectionAttemptsRef st ->
  step cfg e st = Some (st', out) ->
  0 <= connectionAttemptsRef st'
  /\ Forall (fun d => 4000 <= d <= 30000) (scheduled out).
Proof.
  intros Hatt. destruct e; unfold step.
  - hook_run; intros [= <- <-]; simpl; split; first [lia | constructor].
  - hook_run; intros [= <- <-]; simpl; split; first [lia | constructor].
  - hook_run; intros [= <- <-]; simpl; split; first [lia | constructor].
  - destruct (readyState s st) as [[] |]; try discriminate.
    hook_run; intros [= <- <-]; simpl; split; first [lia | constructor].
  - destruct (readyState s st) as [[] |] eqn:Hs; try discriminate.
    unfold finish, run_state, run_out, onmessage.
    destruct (String.eqb frame "pong").
    + intros [= <- <-]. simpl. split; [lia | constructor].
    + destruct (parse cfg frame ≫= dispatch cfg) as [calls |] eqn:E.
      * rewrite emit_all_run. intros [= <- <-].
        destruct (parse cfg frame) as [v |]; [| discriminate].
        destruct (dispatch_calls_handlers cfg v calls E) as (_ & _ & _ & H1 & _).
        rewrite H1. split; [lia | constructor].
      * intros [= <- <-]. split; [lia | constructor].
  - destruct (unclosed st s); [| discriminate].
    hook_run; intros [= <- <-]; simpl; split; first [lia | constructor].
  - destruct (unclosed st s); [| discriminate].
    hook_run; intros [= <- <-]; simpl; (split; [lia |]);
      repeat constructor; apply reconnectDelay_bounds; lia.
  - destruct (heartbeatIntervalRef st) as [due |] eqn:Hdue; [| discriminate].
    destruct (due =? now); [| discriminate].
    hook_run; intros [= <- <-]; simpl; split; first [lia | constructor].
  - destruct (existsb _ _); [| discriminate].
    hook_run; intros [= <- <-]; simpl; split; first [lia | constructor].
Qed.

(** X6. Whatever happens to the hook, every reconnect it ever schedules waits
    at least 4 and at most 30 seconds. *)
Theorem every_retry_waits_4_to_30_seconds cfg t es st out :
  exec cfg es (initial t) = Some (st, out) ->
  Forall (fun d => 4000 <= d <= 30000) (scheduled out).
Proof.
  intros Hrun.
  destruct (exec_invariant cfg (fun _ => true)
              (fun st => 0 <= connectionAttemptsRef st)
              (fun o => Forall (fun d => 4000 <= d <= 30000) (scheduled o)))
    with (es := es) (st := initial t) (st' := st) (out := out) as [_ H].
  - constructor.
  - intros a b Ha Hb. unfold scheduled. rewrite omap_app.
    apply Forall_app. split; assumption.
  - intros e st0 st1 o _. apply step_delay_bounds.
  - apply forallb_any.
  - simpl. lia.
  - exact Hrun.
  - exact H.
Qed.

Lemma every_retry_waits_4_to_30_seconds_witness :
  exists st out,
    exec demo_cfg [Mount; SockClose 0 1006; ReconnectFire 0; SockClose 1 1006] (initial 0)
      = Some (st, out)
    /\ Forall (fun d => 4000 <= d <= 30000) (scheduled out).
Proof.
  assert (H : exists st out,
             exec demo_cfg [Mount; SockClose 0 1006; ReconnectFire 0; SockClose 1 1006]
               (initial 0) = Some (st, out))
    by (eexists _, _; vm_compute; reflexivity).
  destruct H as (st & out & Hrun). exists st, out. split; [exact Hrun |].
  exact (every_retry_waits_4_to_30_seconds demo_cfg 0 _ st out Hrun).
Defined.
(** ** The attempt counter *)

Lemma Zltb_lt_hyp a b : (a <? b) = true -> a < b.
Proof. apply Z.ltb_lt. Qed.

Lemma Zltb_ge_hyp a b : (a <? b) = false -> b <= a.
Proof. apply Z.ltb_ge. Qed.

Lemma cancel_nonempty id ts : cancel id ts <> [] -> ts <> [].
Proof. intros H ->. apply H. reflexivity. Qed.

Lemma existsb_nonempty {A} (f : A -> bool) l : existsb f l = true -> l <> [].
Proof. intros H ->. discriminate H. Qed.

Lemma step_bounded cfg e st st' out :
  automatic e = true ->
  bounded st ->
  step cfg e st = Some (st', out) ->
  bounded st'.
Proof.
  intros Ha (Hwf & Hrange & Hact) Hstep.
  split; [exact (step_well_formed cfg e st st' out Ha Hwf Hstep) |].
  unfold active, unclosed, maxReconnectAttempts in *.
  revert Hstep. destruct e; try discriminate Ha; clear Ha; unfold step.
  - (* disconnect *)
    hook_run; intros [= <- <-]; simpl; (split; [lia |]); intros Hpost;
      apply Hact;
      repeat match goal with
             | H : live (<[?n := CLOSING]> ?l) _ = true |- _ =>
                 rewrite (live_insert_same l n CLOSING) in H by (live_tac || discriminate)
             end.
    all: try (destruct Hpost as [[i Hi] | Hts];
              [ left; exists i;
                first [ exact Hi
                      | rewrite (live_insert_same _ _ CLOSING) in Hi;
                        [exact Hi | live_tac | discriminate] ]
              | right; first [exact Hts | apply (cancel_nonempty _ _ Hts)] ]).
  - (* open *)
    destruct (readyState s st) as [[] |]; try discriminate.
    hook_run; intros [= <- <-]; simpl; split; lia.
  - (* message *)
    destruct (readyState s st) as [[] |] eqn:Hs; try discriminate.
    intros Hstep.
    destruct (String.eqb frame "pong") eqn:Hf.
    + revert Hstep. unfold finish, run_state, run_out, onmessage. rewrite Hf.
      intros [= <- <-]. simpl. auto.
    + apply String.eqb_neq in Hf.
      destruct (step_domain_frame cfg st s now frame Hs Hf) as (o & Ho & _).
      unfold step in Ho. rewrite Hs in Ho. rewrite Ho in Hstep.
      injection Hstep as <- <-. auto.
  - (* error *)
    unfold unclosed. destruct (live (sockets st) s); [| discriminate].
    hook_run; intros [= <- <-]; simpl; auto.
  - (* close *)
    unfold unclosed. destruct (live (sockets st) s) eqn:Hs; [| discriminate].
    assert (Hlt : connectionAttemptsRef st < 5) by (apply Hact; left; eauto).
    pose proof (wf_none_live _ _ _ s Hwf Hs) as Hnone.
    assert (Hts : timeouts st = []).
    { destruct Hwf as (_ & H2 & _). apply H2. eauto. }
    hook_run; intros [= <- <-]; simpl;
      repeat match goal with
             | H : (_ <? _) = true |- _ => apply Zltb_lt_hyp in H
             | H : (_ <? _) = false |- _ => apply Zltb_ge_hyp in H
             end;
      unfold maxReconnectAttempts in *;
      (split; [lia |]); intros Hpost; try lia.
    all: exfalso; destruct Hpost as [[i Hi] | Hne];
      [rewrite Hnone in Hi; discriminate Hi | apply Hne; exact Hts].
  - (* tick *)
    destruct (heartbeatIntervalRef st) as [due |] eqn:Hdue; [| discriminate].
    destruct (due =? now); [| discriminate].
    hook_run; intros [= <- <-]; simpl; (split; [lia |]); intros Hpost; apply Hact.
    all: destruct Hpost as [[i Hi] | Hts];
      [ left; exists i;
        first [ exact Hi
              | rewrite (live_insert_same _ _ CLOSING) in Hi;
                [exact Hi | live_tac | discriminate] ]
      | right; exact Hts ].
  - (* reconnect timer *)
    destruct (existsb _ _) eqn:Hex; [| discriminate].
    assert (Hlt : connectionAttemptsRef st < 5).
    { apply Hact. right. apply (existsb_nonempty _ _ Hex). }
    hook_run; intros [= <- <-]; simpl; split; lia.
Qed.

Lemma mount_bounded cfg t st out :
  step cfg Mount (initial t) = Some (st, out) -> bounded st.
Proof.
  intros Hstep. split; [exact (mount_well_formed cfg t st out Hstep) |].
  revert Hstep. unfold step, maxReconnectAttempts.
  hook_run; intros [= <- <-]; simpl; split; lia.
Qed.

(** X7. Left to itself (the mount, then socket events, ticks, reconnect
    timers and [disconnect]), the hook never counts more than five
    consecutive failures: the attempt counter stays between 0 and 5, and it is
    at most 4 for as long as a socket is unclosed or a reconnect is
    pending. *)
Theorem attempts_stay_within_cap cfg t es st out :
  forallb automatic es = true ->
  exec cfg (Mount :: es) (initial t) = Some (st, out) ->
  0 <= connectionAttemptsRef st <= 5
  /\ ((exists i, unclosed st i = true) \/ timeouts st <> [] ->
      connectionAttemptsRef st <= 4).
Proof.
  intros Ha Hrun. cbn [exec] in Hrun.
  destruct (step cfg Mount (initial t)) as [[st1 o1] |] eqn:Hstep; [| discriminate].
  destruct (exec cfg es st1) as [[st2 o2] |] eqn:Hrest; [| discriminate].
  injection Hrun as <- <-.
  destruct (exec_invariant cfg automatic bounded (fun _ => True) I (fun _ _ _ _ => I)
              (fun e s0 s1 o He Hb Hs => conj (step_bounded cfg e s0 s1 o He Hb Hs) I)
              es st1 st2 o2 Ha (mount_bounded cfg t st1 o1 Hstep) Hrest)
    as [(_ & Hrange & Hact) _].
  unfold maxReconnectAttempts, active in *. split; [exact Hrange |].
  intros H. specialize (Hact H). lia.
Qed.

Lemma attempts_stay_within_cap_witness :
  exists st out,
    exec demo_cfg [Mount; SockClose 0 1006; ReconnectFire 0; SockClose 1 1006] (initial 0)
      = Some (st, out)
    /\ 0 <= connectionAttemptsRef st <= 5.
Proof.
  assert (H : exists st out,
             exec demo_cfg [Mount; SockClose 0 1006; ReconnectFire 0; SockClose 1 1006]
               (initial 0) = Some (st, out))
    by (eexists _, _; vm_compute; reflexivity).
  destruct H as (st & out & Hrun). exists st, out. split; [exact Hrun |].
  exact (proj1 (attempts_stay_within_cap demo_cfg 0
                  [SockClose 0 1006; ReconnectFire 0; SockClose 1 1006]
                  st out eq_refl Hrun)).
Defined.
(** ** Opening, reconnecting by hand, failing to construct *)

Lemma step_open_resets cfg st s now :
  readyState s st = Some CONNECTING ->
  exists st' out,
    step cfg (SockOpen s now) st = Some (st', out)
    /\ connectionAttemptsRef st' = 0
    /\ shouldReconnectRef st' = shouldReconnectRef st
    /\ unclosed st' s = true
    /\ scheduled out = [].
Proof.
  intros Hs. pose proof (readyState_insert st s CONNECTING OPEN Hs) as Hopen.
  unfold step. rewrite Hs. unfold unclosed, live. revert Hopen.
  hook_run; intros Hopen;
    eexists _, _; (split; [reflexivity |]); simpl; rewrite ?Hopen; repeat split.
Qed.

(** X8. A successful open wipes the backoff: however many attempts failed
    before it, the first abnormal close after an open is retried after
    4 seconds. *)
Theorem open_restarts_backoff cfg st s now code :
  readyState s st = Some CONNECTING ->
  shouldReconnectRef st = true ->
  code <> 1000 ->
  exists st' out,
    exec cfg [SockOpen s now; SockClose s code] st = Some (st', out)
    /\ scheduled out = [4000]
    /\ connectionAttemptsRef st' = 1
    /\ connectionStatus st' = reconnecting.
Proof.
  intros Hs Hsr Hc.
  destruct (step_open_resets cfg st s now Hs) as (st1 & o1 & H1 & Hatt & Hsr1 & Hun & Hsch1).
  assert (Hp : reconnect_permitted st1 code = true).
  { unfold reconnect_permitted. rewrite Hsr1, Hsr, Hatt.
    apply Z.eqb_neq in Hc. rewrite Hc. reflexivity. }
  destruct (onclose_retry cfg st1 s code Hun Hp)
    as (st2 & o2 & H2 & Hatt2 & Hsch2 & _ & _ & Hst2).
  exists st2, (o1 ++ o2 ++ []).
  split. { rewrite (exec_cons cfg _ _ _ _ _ H1), (exec_cons cfg _ _ _ _ _ H2). reflexivity. }
  split. { unfold scheduled in *. rewrite !omap_app, Hsch1, Hsch2, Hatt. reflexivity. }
  split; [rewrite Hatt2, Hatt; reflexivity | exact Hst2].
Qed.

Lemma open_restarts_backoff_witness :
  exists st' out,
    exec demo_cfg [SockOpen 0 1000; SockClose 0 1006]
      (set_connectionAttemptsRef 4 demo_connecting) = Some (st', out)
    /\ scheduled out = [4000].
Proof.
  destruct (open_restarts_backoff demo_cfg (set_connectionAttemptsRef 4 demo_connecting)
              0%nat 1000 1006) as (st' & out & H1 & H2 & _).
  - reflexivity.
  - reflexivity.
  - lia.
  - exists st', out. split; assumption.
Defined.

(** X9. [connect] does not reset the attempt counter.  Once the attempts are
    exhausted, a [connect()] by hand constructs one socket, under the status
    [reconnecting]; if that socket closes abnormally, nothing is scheduled
    and the status is [disconnected] again. *)
Theorem manual_connect_after_exhaustion cfg st code :
  maxReconnectAttempts <= connectionAttemptsRef st ->
  ws_is_open st = false ->
  shouldReconnectRef st = true ->
  ctorError cfg = None ->
  code <> 1000 ->
  exists st1 st2 out2,
    step cfg CallConnect st
      = Some (st1, [WsNew (length (sockets st)) (fullUrl cfg)])
    /\ connectionStatus st1 = reconnecting
    /\ connectionAttemptsRef st1 = connectionAttemptsRef st
    /\ step cfg (SockClose (length (sockets st)) code) st1 = Some (st2, out2)
    /\ scheduled out2 = []
    /\ timeouts st2 = timeouts st
    /\ connectionStatus st2 = disconnected.
Proof.
  intros Hcap Hopen Hsr Hctor Hc. unfold maxReconnectAttempts in Hcap.
  assert (H0 : (connectionAttemptsRef st =? 0) = false) by (apply Z.eqb_neq; lia).
  set (st1 := set_wsRef (Some (length (sockets st)))
                (set_sockets (sockets st ++ [CONNECTING])
                   (set_connectionStatus reconnecting st))).
  assert (H1 : step cfg CallConnect st
               = Some (st1, [WsNew (length (sockets st)) (fullUrl cfg)])).
  { unfold step, finish, run_state, run_out, connect, bind, get. simpl.
    rewrite Hopen, Hsr. simpl. rewrite Hctor, H0. reflexivity. }
  assert (Hun : unclosed st1 (length (sockets st)) = true).
  { unfold unclosed, live. simpl. rewrite lookup_app_r by lia.
    rewrite Nat.sub_diag. reflexivity. }
  assert (Hcap1 : (connectionAttemptsRef st1 + 1 <? maxReconnectAttempts) = false).
  { apply Z.ltb_ge. unfold maxReconnectAttempts. simpl. lia. }
  destruct (onclose_capped cfg st1 _ code Hun Hsr Hc Hcap1)
    as (st2 & o2 & H2 & _ & Hsch & Hts & Hst & _).
  exists st1, st2, o2. repeat split; assumption.
Qed.

Lemma manual_connect_after_exhaustion_witness :
  exists st1 st2 out2,
    step demo_cfg CallConnect
      (set_connectionAttemptsRef 5 (set_sockets [CLOSED] demo_connecting))
      = Some (st1, [WsNew 1 "ws://localhost:8080/api/chat/demo"])
    /\ step demo_cfg (SockClose 1 1006) st1 = Some (st2, out2)
    /\ scheduled out2 = [].
Proof.
  destruct (manual_connect_after_exhaustion demo_cfg
              (set_connectionAttemptsRef 5 (set_sockets [CLOSED] demo_connecting)) 1006)
    as (st1 & st2 & o2 & H1 & _ & _ & H2 & H3 & _).
  - unfold maxReconnectAttempts. simpl. lia.
  - reflexivity.
  - reflexivity.
  - reflexivity.
  - lia.
  - exists st1, st2, o2. repeat split; assumption.
Defined.

(** X10. A socket that cannot be constructed is never retried.  When
    [new WebSocket] throws at the mount, the error is logged and handed to
    the error callback, no socket exists, no timeout is pending, and the
    status stays [connecting]: nothing is left that could ever fire. *)
Theorem construction_failure_is_final cfg t error :
  ctorError cfg = Some error ->
  exists st,
    step cfg Mount (initial t)
      = Some (st, ConsoleError "Failed to create WebSocket connection:"
                  :: (if onError cfg then [OnError error] else []))
    /\ sockets st = [] /\ timeouts st = [] /\ wsRef st = None
    /\ connectionStatus st = connecting
    /\ (forall e, automatic e = true -> e <> CallDisconnect -> step cfg e st = None).
Proof.
  intros Hctor. unfold step at 1. hook_unfold. simpl. rewrite Hctor.
  destruct (onError cfg); simpl; eexists; (split; [reflexivity |]); simpl;
    repeat (split; [reflexivity |]);
    intros [] Ha Hne; try discriminate Ha; try congruence; reflexivity.
Qed.

Lemma construction_failure_is_final_witness :
  exists st,
    step (mkConfig demo_parse None "demo" (Some "SyntaxError") true true true true true)
         Mount (initial 0)
      = Some (st, [ConsoleError "Failed to create WebSocket connection:";
                   OnError "SyntaxError"])
    /\ connectionStatus st = connecting.
Proof.
  destruct (construction_failure_is_final
              (mkConfig demo_parse None "demo" (Some "SyntaxError") true true true true true)
              0 "SyntaxError" eq_refl) as (st & H1 & _ & _ & _ & H2 & _).
  exists st. split; assumption.
Defined.
(** ** Sending, and the heartbeat of a connection that answers *)

Lemma torn_down_step cfg e st st' out :
  is_mount e = false ->
  shouldReconnectRef st = false ->
  wsRef st = None ->
  step cfg e st = Some (st', out) ->
  shouldReconnectRef st' = false /\ wsRef st' = None.
Proof.
  intros Ha Hsr Hws. destruct e; try discriminate Ha; clear Ha; unfold step.
  - hook_unfold. simpl. repeat (first [rewrite Hsr | rewrite Hws | hook_branch]; simpl).
    all: intros [= <- <-]; simpl; split; assumption.
  - hook_run; intros [= <- <-]; simpl; split; first [reflexivity | assumption].
  - destruct (readyState s st) as [[] |]; try discriminate.
    hook_run; intros [= <- <-]; simpl; split; assumption.
  - destruct (readyState s st) as [[] |] eqn:Hs; try discriminate.
    intros Hstep.
    destruct (String.eqb frame "pong") eqn:Hf.
    + revert Hstep. unfold finish, run_state, run_out, onmessage. rewrite Hf.
      intros [= <- <-]. simpl. auto.
    + apply String.eqb_neq in Hf.
      destruct (step_domain_frame cfg st s now frame Hs Hf) as (o & Ho & _).
      unfold step in Ho. rewrite Hs in Ho. rewrite Ho in Hstep.
      injection Hstep as <- <-. auto.
  - destruct (unclosed st s); [| discriminate].
    hook_run; intros [= <- <-]; simpl; split; assumption.
  - destruct (unclosed st s); [| discriminate].
    hook_unfold. simpl. repeat (first [rewrite Hsr | hook_branch]; simpl).
    all: intros [= <- <-]; simpl; split; assumption.
  - destruct (heartbeatIntervalRef st) as [due |]; [| discriminate].
    destruct (due =? now); [| discriminate].
    hook_unfold. simpl. rewrite Hws. intros [= <- <-]. simpl. split; assumption.
  - destruct (existsb _ _); [| discriminate].
    hook_unfold. simpl. repeat (first [rewrite Hsr | rewrite Hws | hook_branch]; simpl).
    all: intros [= <- <-]; simpl; split; assumption.
Qed.

(** X11. [sendMessage] never touches the hook's state, and puts a frame on
    the wire only for the open socket in [wsRef]; after a [disconnect], until
    the effect mounts again, every [sendMessage] is dropped with the warning
    "WebSocket is not connected", whatever has happened in between. *)
Theorem send_after_disconnect_is_dropped cfg st0 st1 out1 es st2 out2 json :
  step cfg CallDisconnect st0 = Some (st1, out1) ->
  forallb (fun e => negb (is_mount e)) es = true ->
  exec cfg es st1 = Some (st2, out2) ->
  sendMessage json st2 = (tt, st2, [ConsoleWarn "WebSocket is not connected"])
  /\ (forall st, run_state (sendMessage json) st = st)
  /\ (forall st s, In (s, json) (sent (run_out (sendMessage json) st)) ->
        wsRef st = Some s /\ readyState s st = Some OPEN).
Proof.
  intros Hd Hnm Hrun. split; [| split].
  - assert (H1 : shouldReconnectRef st1 = false /\ wsRef st1 = None).
    { revert Hd. unfold step. hook_run; intros [= <- <-]; simpl; split;
        first [reflexivity | assumption]. }
    destruct (exec_invariant cfg (fun e => negb (is_mount e))
                (fun st => shouldReconnectRef st = false /\ wsRef st = None)
                (fun _ => True) I (fun _ _ _ _ => I))
      with (es := es) (st := st1) (st' := st2) (out := out2) as [[_ Hws] _];
      try assumption.
    + intros e sa sb o He [Ha Hb] Hs. apply negb_true_iff in He.
      split; [exact (torn_down_step cfg e sa sb o He Ha Hb Hs) | exact I].
    + unfold sendMessage, bind, get, ws_is_open. simpl. rewrite Hws. reflexivity.
  - intros st. unfold run_state, sendMessage, bind, get, ws_send, emit, ret. simpl.
    destruct (ws_is_open st); [destruct (wsRef st) |]; reflexivity.
  - intros st s. unfold run_out, sendMessage, bind, get, ws_send, emit, ret,
      ws_is_open, readyState. simpl.
    destruct (wsRef st) as [w |]; simpl; [| contradiction].
    destruct (sockets st !! w) as [[] |] eqn:E; simpl; intros H;
      first [contradiction | destruct H as [[= <-] | []]; auto].
Qed.

Lemma send_after_disconnect_is_dropped_witness :
  sendMessage "{}" (set_connectionStatus disconnected
                      (set_isConnected false
                         (set_wsRef None
                            (set_sockets [CLOSING]
                               (set_heartbeatIntervalRef None
                                  (set_shouldReconnectRef false demo_open))))))
  = (tt,
     set_connectionStatus disconnected
       (set_isConnected false
          (set_wsRef None
             (set_sockets [CLOSING]
                (set_heartbeatIntervalRef None
                   (set_shouldReconnectRef false demo_open))))),
     [ConsoleWarn "WebSocket is not connected"]).
Proof.
  exact (proj1 (send_after_disconnect_is_dropped demo_cfg demo_open _ _ [] _ _ "{}"
                  eq_refl eq_refl eq_refl)).
Defined.

Lemma answered_run cfg s delays :
  Forall (fun d => 0 <= d <= heartbeatInterval) delays ->
  forall st tick,
    wsRef st = Some s ->
    readyState s st = Some OPEN ->
    heartbeatIntervalRef st = Some tick ->
    tick - lastPongRef st <= heartbeatInterval + pongTimeout ->
    exists st' out,
      exec cfg (answered s tick delays) st = Some (st', out)
      /\ closes out = []
      /\ sent out = map (fun _ => (s, "ping")) delays
      /\ wsRef st' = Some s
      /\ readyState s st' = Some OPEN.
Proof.
  induction 1 as [| d delays Hd Hall IH]; intros st tick Hws Hs Hhb Hel.
  - exists st, []. repeat split; assumption.
  - pose proof (step_tick cfg st s tick Hhb Hws Hs) as Htick.
    replace (heartbeatInterval + pongTimeout <? tick - lastPongRef st)
      with false in Htick by (symmetry; apply Z.ltb_ge; lia).
    set (st1 := set_heartbeatIntervalRef (Some (tick + heartbeatInterval)) st) in *.
    assert (Hpong : step cfg (SockMessage s (tick + d) "pong") st1
                    = Some (set_lastPongRef (tick + d) st1, [])).
    { unfold step. change (readyState s st1) with (readyState s st).
      rewrite Hs. reflexivity. }
    destruct (IH (set_lastPongRef (tick + d) st1) (tick + heartbeatInterval))
      as (st' & out & Hrun & Hc & Hsent & Hws' & Hs'); try assumption.
    { reflexivity. }
    { simpl. unfold pongTimeout. lia. }
    exists st', ([WsSend s "ping"] ++ [] ++ out).
    cbn [answered].
    rewrite (exec_cons cfg _ _ _ _ _ Htick), (exec_cons cfg _ _ _ _ _ Hpong), Hrun.
    split; [reflexivity |]. simpl. rewrite Hc, Hsent. repeat split; assumption.
Qed.

(** X12. The heartbeat never closes a connection that answers.  After an open
    at [t0], if every "ping" is answered by a "pong" before the next tick,
    then through any number of ticks each tick sends one "ping" and none
    closes the socket. *)
Theorem answered_connection_stays_open cfg st0 s t0 delays :
  wsRef st0 = Some s ->
  readyState s st0 = Some CONNECTING ->
  Forall (fun d => 0 <= d <= heartbeatInterval) delays ->
  exists st out,
    exec cfg (SockOpen s t0 :: answered s (t0 + heartbeatInterval) delays) st0
      = Some (st, out)
    /\ closes out = []
    /\ sent out = map (fun _ => (s, "ping")) delays
    /\ readyState s st = Some OPEN.
Proof.
  intros Hws Hs Hall.
  destruct (step_open cfg st0 s t0 Hs)
    as (st1 & o1 & Hopen & Hws1 & Hs1 & Hlp1 & Hhb1 & Hsent1 & Hc1).
  rewrite Hws in Hws1.
  destruct (answered_run cfg s delays Hall st1 (t0 + heartbeatInterval) Hws1 Hs1 Hhb1)
    as (st & out & Hrun & Hc & Hsent & _ & Hs').
  { rewrite Hlp1. unfold pongTimeout. lia. }
  exists st, (o1 ++ out).
  rewrite (exec_cons cfg _ _ _ _ _ Hopen), Hrun.
  split; [reflexivity |].
  unfold closes, sent in *. rewrite !omap_app, Hc1, Hc, Hsent1, Hsent.
  repeat split. exact Hs'.
Qed.

Lemma answered_connection_stays_open_witness :
  exists st out,
    exec demo_cfg (SockOpen 0 1000 :: answered 0 61000 [20; 35; 59000]) demo_connecting
      = Some (st, out)
    /\ closes out = []
    /\ sent out = [(0%nat, "ping"); (0%nat, "ping"); (0%nat, "ping")].
Proof.
  destruct (answered_connection_stays_open demo_cfg demo_connecting 0%nat 1000
              [20; 35; 59000]) as (st & out & H1 & H2 & H3 & _).
  - reflexivity.
  - reflexivity.
  - unfold heartbeatInterval. repeat constructor; lia.
  - exists st, out. repeat split; assumption.
Defined.

(** X13. [disconnect] is idempotent: a second call right after the first
    finds nothing to cancel or close, makes no call to the outside and leaves
    the state exactly as the first call left it. *)
Theorem disconnect_twice cfg st st1 out1 :
  step cfg CallDisconnect st = Some (st1, out1) ->
  step cfg CallDisconnect st1 = Some (st1, []).
Proof.
  unfold step. intros H.
  assert (Hf : shouldReconnectRef st1 = false /\ reconnectTimeoutRef st1 = None
               /\ heartbeatIntervalRef st1 = None /\ wsRef st1 = None
               /\ isConnected st1 = false /\ connectionStatus st1 = disconnected).
  { revert H. hook_unfold. simpl.
    destruct (heartbeatIntervalRef st) as [due |] eqn:Hhb;
      repeat (first [rewrite Hhb | hook_branch]; simpl);
      intros [= <- <-]; simpl; repeat split; first [assumption | discriminate]. }
  destruct Hf as (H1 & H2 & H3 & H4 & H5 & H6). clear H.
  hook_unfold. simpl. rewrite H2. simpl. rewrite H3. simpl. rewrite H4. simpl.
  destruct st1; simpl in *; subst; reflexivity.
Qed.

Lemma disconnect_twice_witness :
  step demo_cfg CallDisconnect
    (set_connectionStatus disconnected
       (set_isConnected false
          (set_wsRef None
             (set_sockets [CLOSING]
                (set_heartbeatIntervalRef None
                   (set_shouldReconnectRef false demo_open))))))
  = Some (set_connectionStatus disconnected
            (set_isConnected false
               (set_wsRef None
                  (set_sockets [CLOSING]
                     (set_heartbeatIntervalRef None
                        (set_shouldReconnectRef false demo_open))))), []).
Proof.
  exact (disconnect_twice demo_cfg demo_open _
           [ClearInterval; WsClose 0 (Some 1000)] eq_refl).
Defined.
(** ** Grouping the message list *)

Section GroupMessagesFacts.

Context {Message : Type}.
Variable role : Message -> string.
Variable conversation_id : Message -> option string.
Variable getTime : Message -> option Z.

Local Abbreviation after := (groups_after role conversation_id getTime).

Lemma group_loop_after previous rest currentGroup groups :
  group_loop role conversation_id getTime previous rest currentGroup groups
  = groups ++ (currentGroup ++ fst (after previous rest)) :: snd (after previous rest).
Proof.
  revert previous currentGroup groups.
  induction rest as [| current rest IH]; intros previous currentGroup groups.
  - simpl. rewrite app_nil_r. reflexivity.
  - simpl. destruct (shouldGroup role conversation_id getTime current previous);
      rewrite IH; simpl.
    + rewrite <- app_assoc. reflexivity.
    + rewrite <- app_assoc, app_nil_r. reflexivity.
Qed.

Lemma groupMessages_after first rest :
  groupMessages role conversation_id getTime (first :: rest)
  = (first :: fst (after first rest)) :: snd (after first rest).
Proof. unfold groupMessages. rewrite group_loop_after. reflexivity. Qed.

Lemma after_concat previous rest :
  fst (after previous rest) ++ concat (snd (after previous rest)) = rest.
Proof.
  revert previous. induction rest as [| current rest IH]; intros previous.
  - reflexivity.
  - simpl. destruct (shouldGroup role conversation_id getTime current previous); simpl;
      rewrite IH; reflexivity.
Qed.

Lemma after_nonempty previous rest :
  Forall (fun g => g <> []) (snd (after previous rest)).
Proof.
  revert previous. induction rest as [| current rest IH]; intros previous.
  - constructor.
  - simpl. destruct (shouldGroup role conversation_id getTime current previous); simpl.
    + apply IH.
    + constructor; [discriminate | apply IH].
Qed.

(** X14. [groupMessages] only cuts the list: the groups, one after the other,
    are the messages in their order, and no group is empty (so the first and
    the last message of a group, which the component reads, exist); an empty
    list gives no group. *)
Theorem groupMessages_partitions (messages : list Message) :
  concat (groupMessages role conversation_id getTime messages) = messages
  /\ Forall (fun g => g <> []) (groupMessages role conversation_id getTime messages)
  /\ (groupMessages role conversation_id getTime messages = [] <-> messages = []).
Proof.
  destruct messages as [| first rest].
  - repeat split; constructor.
  - rewrite groupMessages_after. split; [| split].
    + simpl. rewrite after_concat. reflexivity.
    + constructor; [discriminate | apply after_nonempty].
    + split; discriminate.
Qed.


Lemma after_adjacent previous rest :
  (forall i a b,
      (previous :: fst (after previous rest)) !! i = Some a ->
      (previous :: fst (after previous rest)) !! S i = Some b ->
      shouldGroup role conversation_id getTime b a = true)
  /\ (forall g, In g (snd (after previous rest)) ->
       forall i a b, g !! i = Some a -> g !! S i = Some b ->
         shouldGroup role conversation_id getTime b a = true).
Proof.
  revert previous. induction rest as [| current rest IH]; intros previous.
  - split.
    + intros i a b _ H. destruct i; discriminate H.
    + intros g [].
  - destruct (IH current) as [IH1 IH2]. simpl.
    destruct (shouldGroup role conversation_id getTime current previous) eqn:E; simpl; split.
    + intros [| i] a b Ha Hb.
      * simpl in Ha, Hb. congruence.
      * apply (IH1 i); assumption.
    + exact IH2.
    + intros i a b _ H. destruct i; discriminate H.
    + intros g [<- | Hg]; [exact IH1 | apply IH2; exact Hg].
Qed.

Lemma grouped_adjacent messages g :
  In g (groupMessages role conversation_id getTime messages) ->
  forall i a b, g !! i = Some a -> g !! S i = Some b ->
         shouldGroup role conversation_id getTime b a = true.
Proof.
  destruct messages as [| first rest]; [intros [] |].
  rewrite groupMessages_after. destruct (after_adjacent first rest) as [H1 H2].
  intros [<- | Hg]; [exact H1 | apply H2; exact Hg].
Qed.

Lemma after_boundary previous rest :
  forall k g1 g2 a b,
    ((previous :: fst (after previous rest)) :: snd (after previous rest)) !! k = Some g1 ->
    ((previous :: fst (after previous rest)) :: snd (after previous rest)) !! S k = Some g2 ->
    last g1 = Some a -> head g2 = Some b ->
    shouldGroup role conversation_id getTime b a = false.
Proof.
  revert previous. induction rest as [| current rest IH]; intros previous.
  - intros k g1 g2 a b _ H. destruct k; discriminate H.
  - simpl.
    destruct (shouldGroup role conversation_id getTime current previous) eqn:E; simpl.
    + intros [| k] g1 g2 a b H1 H2 Ha Hb.
      * simpl in H1, H2. injection H1 as <-.
        apply (IH current 0%nat (current :: fst (after current rest)) g2 a b);
          [reflexivity | exact H2 | exact Ha | exact Hb].
      * apply (IH current (S k) g1 g2 a b); assumption.
    + intros [| k] g1 g2 a b H1 H2 Ha Hb.
      * simpl in H1, H2. injection H1 as <-. injection H2 as <-.
        simpl in Ha, Hb. congruence.
      * apply (IH current k g1 g2 a b); assumption.
Qed.

(** X15. The cuts are exactly where the rule says: inside a group every
    message passes [shouldGroup] against the one before it (same role, same
    conversation, both dates valid and less than two minutes later), and where
    one group ends and the next begins the next message fails it against the
    last one. *)
Theorem groupMessages_cuts_where_rule_fails (messages : list Message) :
  (forall g, In g (groupMessages role conversation_id getTime messages) ->
     forall i a b, g !! i = Some a -> g !! S i = Some b ->
         shouldGroup role conversation_id getTime b a = true)
  /\ (forall k g1 g2 a b,
        groupMessages role conversation_id getTime messages !! k = Some g1 ->
        groupMessages role conversation_id getTime messages !! S k = Some g2 ->
        last g1 = Some a -> head g2 = Some b ->
        shouldGroup role conversation_id getTime b a = false).
Proof.
  split.
  - intros g. apply grouped_adjacent.
  - destruct messages as [| first rest].
    + intros k g1 g2 a b H. destruct k; discriminate H.
    + rewrite groupMessages_after. apply after_boundary.
Qed.

Lemma same_conversation_eq a b : same_conversation a b = true -> a = b.
Proof.
  destruct a, b; simpl; try discriminate; try reflexivity.
  intros H. apply String.eqb_eq in H. congruence.
Qed.

Lemma should_same b a :
  shouldGroup role conversation_id getTime b a = true ->
  role b = role a /\ conversation_id b = conversation_id a
  /\ is_Some (getTime a) /\ is_Some (getTime b).
Proof.
  unfold shouldGroup, within_two_minutes. intros H.
  apply andb_prop in H as [H Ht]. apply andb_prop in H as [Hr Hc].
  apply String.eqb_eq in Hr. apply same_conversation_eq in Hc.
  destruct (getTime b), (getTime a); try discriminate. eauto.
Qed.

Lemma chain_homogeneous (g : list Message) :
  (forall i a b, g !! i = Some a -> g !! S i = Some b ->
         shouldGroup role conversation_id getTime b a = true) ->
  forall first m, head g = Some first -> In m g ->
    role m = role first /\ conversation_id m = conversation_id first.
Proof.
  induction g as [| x g IH]; intros Hadj first m Hh Hin; [discriminate Hh |].
  simpl in Hh. injection Hh as <-.
  destruct Hin as [<- | Hin]; [auto |].
  destruct g as [| y g]; [destruct Hin |].
  destruct (should_same y x (Hadj 0%nat x y eq_refl eq_refl)) as (Hr & Hc & _).
  destruct (IH (fun i a b => Hadj (S i) a b) y m eq_refl Hin) as [Hr' Hc'].
  split; congruence.
Qed.

(** X16. A group is of one voice: every message in it has the role and the
    conversation of the group's first message, which is the one the component
    takes the bubble's side and colour from. *)
Theorem group_shares_role_and_conversation (messages : list Message) g first m :
  In g (groupMessages role conversation_id getTime messages) ->
  head g = Some first ->
  In m g ->
  role m = role first /\ conversation_id m = conversation_id first.
Proof.
  intros Hg. apply chain_homogeneous. apply (grouped_adjacent messages g Hg).
Qed.

(** X17. A message whose date does not parse is never grouped with a
    neighbour: it is a group of its own. *)
Theorem unparsable_date_stands_alone (messages : list Message) g m :
  In g (groupMessages role conversation_id getTime messages) ->
  In m g ->
  getTime m = None ->
  g = [m].
Proof.
  intros Hg Hm Ht.
  pose proof (grouped_adjacent messages g Hg) as Hadj.
  apply list_elem_of_In, list_elem_of_lookup in Hm as [i Hi].
  assert (Hno : ~ is_Some (getTime m)) by (rewrite Ht; intros [? [=]]).
  destruct i as [| i].
  - destruct g as [| x g]; [discriminate Hi |]. simpl in Hi. injection Hi as ->.
    destruct g as [| y g]; [reflexivity |].
    exfalso. apply Hno. apply (should_same y m (Hadj 0%nat m y eq_refl eq_refl)).
  - destruct (g !! i) as [p |] eqn:Hp.
    + exfalso. apply Hno. apply (should_same m p (Hadj i p m Hp Hi)).
    + apply lookup_ge_None in Hp. apply lookup_lt_Some in Hi. lia.
Qed.

End GroupMessagesFacts.

Lemma group_shares_role_and_conversation_witness :
  demo_role (mkDemoMessage "m3" "assistant" (Some "c1") (Some 61000)) = "assistant"
  /\ demo_conversation (mkDemoMessage "m3" "assistant" (Some "c1") (Some 61000))
     = Some "c1".
Proof.
  apply (group_shares_role_and_conversation demo_role demo_conversation demo_time
           demo_messages
           [mkDemoMessage "m2" "assistant" (Some "c1") (Some 1000);
            mkDemoMessage "m3" "assistant" (Some "c1") (Some 61000)]
           (mkDemoMessage "m2" "assistant" (Some "c1") (Some 1000))).
  - vm_compute. auto.
  - reflexivity.
  - simpl. auto.
Defined.

Lemma unparsable_date_stands_alone_witness :
  [mkDemoMessage "m4" "assistant" (Some "c1") None]
  = [mkDemoMessage "m4" "assistant" (Some "c1") None].
Proof.
  apply (unparsable_date_stands_alone demo_role demo_conversation demo_time
           demo_messages).
  - vm_compute. auto.
  - simpl. auto.
  - reflexivity.
Defined.
(** ** Pinned messages *)

Lemma svz_string_l a x : same_value_zero (JString a) x = true <-> x = JString a.
Proof.
  destruct x; simpl; split; try discriminate.
  - intros H. apply String.eqb_eq in H. congruence.
  - intros [= ->]. apply String.eqb_refl.
Qed.

Lemma svz_string_r a x : same_value_zero x (JString a) = true <-> x = JString a.
Proof.
  destruct x; simpl; split; try discriminate.
  - destruct x; discriminate.
  - intros H. apply String.eqb_eq in H. congruence.
  - intros [= ->]. apply String.eqb_refl.
Qed.

Lemma svz_strings a b : same_value_zero (JString a) (JString b) = String.eqb a b.
Proof. reflexivity. Qed.

Lemma set_has_app l1 l2 v : set_has (l1 ++ l2) v = set_has l1 v || set_has l2 v.
Proof. unfold set_has. apply existsb_app. Qed.

Lemma set_has_add l v a :
  set_has (set_add l v) (JString a) = same_value_zero (JString a) v || set_has l (JString a).
Proof.
  unfold set_add. destruct (set_has l v) eqn:Hv.
  - destruct (same_value_zero (JString a) v) eqn:E; [| reflexivity].
    apply svz_string_l in E. subst v. rewrite Hv. reflexivity.
  - rewrite set_has_app. simpl. rewrite orb_false_r. apply orb_comm.
Qed.

Lemma set_has_delete l a b :
  set_has (set_delete l (JString a)) (JString b)
  = negb (String.eqb b a) && set_has l (JString b).
Proof.
  unfold set_has, set_delete. induction l as [| x l IH].
  - simpl. rewrite andb_false_r. reflexivity.
  - cbn [List.filter existsb].
    destruct (same_value_zero x (JString a)) eqn:Ex; cbn [negb existsb].
    + apply svz_string_r in Ex. subst x. rewrite IH, svz_strings.
      destruct (String.eqb b a); reflexivity.
    + rewrite IH. destruct (same_value_zero (JString b) x) eqn:Eb.
      * apply svz_string_l in Eb. subst x. rewrite svz_strings in Ex.
        rewrite Ex. reflexivity.
      * reflexivity.
Qed.

Lemma set_delete_absent l v :
  (forall x, In x l -> same_value_zero x v = false) -> set_delete l v = l.
Proof.
  unfold set_delete. induction l as [| x l IH]; intros H; [reflexivity |].
  simpl. rewrite (H x (or_introl eq_refl)). simpl. f_equal.
  apply IH. intros y Hy. apply H. right. exact Hy.
Qed.

Lemma set_has_false_string l a :
  set_has l (JString a) = false ->
  forall x, In x l -> same_value_zero x (JString a) = false.
Proof.
  unfold set_has. intros H x Hx.
  destruct (same_value_zero x (JString a)) eqn:E; [| reflexivity].
  apply svz_string_r in E. subst x.
  assert (existsb (same_value_zero (JString a)) l = true).
  { apply existsb_exists. exists (JString a). split; [exact Hx | apply String.eqb_refl]. }
  congruence.
Qed.

Lemma getItem_setItem key value storage k :
  getItem k (setItem key value storage)
  = if String.eqb key k then Some value else getItem k storage.
Proof.
  unfold setItem. simpl. destruct (String.eqb key k) eqn:E; [reflexivity |].
  induction storage as [| [k' v'] storage IH]; [reflexivity |].
  simpl. destruct (String.eqb k' key) eqn:E'; simpl.
  - apply String.eqb_eq in E'. subst k'. rewrite E. exact IH.
  - destruct (String.eqb k' k); [reflexivity | exact IH].
Qed.

Lemma is_set_list_delete l v : is_set_list l -> is_set_list (set_delete l v).
Proof.
  unfold set_delete. induction l as [| x l IH]; simpl; [auto |].
  intros [Hx Hl]. destruct (negb (same_value_zero x v)); simpl; [| auto].
  split; [| auto]. intros y Hy. apply Hx. apply List.filter_In in Hy. tauto.
Qed.

Lemma is_set_list_snoc l v :
  is_set_list l -> set_has l v = false -> is_set_list (l ++ [v]).
Proof.
  unfold set_has. induction l as [| x l IH]; simpl.
  - intros _ _. split; [intros y [] | exact I].
  - intros [Hx Hl] Hv. apply orb_false_elim in Hv as [Hvx Hv].
    split; [| auto]. intros y Hy. apply in_app_or in Hy as [Hy | [<- | []]]; auto.
Qed.

Lemma is_set_list_add l v : is_set_list l -> is_set_list (set_add l v).
Proof.
  intros Hl. unfold set_add. destruct (set_has l v) eqn:E; [exact Hl |].
  apply is_set_list_snoc; assumption.
Qed.

Lemma is_set_list_app_has acc x l :
  is_set_list (acc ++ x :: l) -> set_has acc x = false.
Proof.
  unfold set_has. induction acc as [| a acc IH]; simpl; [reflexivity |].
  intros [Ha Hrest]. rewrite (IH Hrest), orb_false_r.
  apply Ha. apply in_or_app. right. left. reflexivity.
Qed.

Lemma fold_add_set_list l acc :
  is_set_list (acc ++ l) -> fold_left set_add l acc = acc ++ l.
Proof.
  revert acc. induction l as [| x l IH]; intros acc H; simpl.
  - rewrite app_nil_r. reflexivity.
  - unfold set_add at 2. rewrite (is_set_list_app_has acc x l H).
    rewrite IH; rewrite <- app_assoc; [reflexivity | exact H].
Qed.

Lemma NoDup_map_filter {A B} (f : A -> B) (p : A -> bool) l :
  List.NoDup (map f l) -> List.NoDup (map f (List.filter p l)).
Proof.
  induction l as [| x l IH]; simpl; [auto |].
  intros H. apply List.NoDup_cons_iff in H as [Hx Hl].
  destruct (p x); simpl; [| auto].
  apply List.NoDup_cons_iff. split; [| auto].
  intros Hin. apply Hx.
  apply in_map_iff in Hin as (y & Hy & Hin). apply List.filter_In in Hin.
  apply in_map_iff. exists y. tauto.
Qed.

Lemma NoDup_map_JString (l : list string) :
  List.NoDup l -> List.NoDup (map JString l).
Proof.
  induction l as [| x l IH]; simpl; intros H; [constructor |].
  apply List.NoDup_cons_iff in H as [Hx Hl].
  apply List.NoDup_cons_iff. split; [| auto].
  intros Hin. apply Hx. apply in_map_iff in Hin as (y & [= ->] & Hin). exact Hin.
Qed.

Section PinnedMessagesFacts.

Variable json_parse : string -> option JValue.
Variable json_stringify : JValue -> string.
Variable code_points : string -> list string.
Variable projectId : string.

Local Abbreviation pin := (pinMessage json_stringify projectId).
Local Abbreviation unpin := (unpinMessage json_stringify projectId).
Local Abbreviation clear := (clearPinnedMessages json_stringify projectId).
Local Abbreviation load := (load_pins json_parse code_points projectId).
Local Abbreviation click := (click_pin json_stringify projectId).
Local Abbreviation key := (storageKey projectId).

(** X18. What is pinned after each operation: [pinMessage] adds its message
    and nothing else, [unpinMessage] removes its message and nothing else,
    [clearPinnedMessages] leaves nothing pinned. *)
Theorem pin_unpin_membership (st : PinState) (id id' : string) :
  isMessagePinned (pin id st) id' = String.eqb id' id || isMessagePinned st id'
  /\ isMessagePinned (unpin id st) id'
     = negb (String.eqb id' id) && isMessagePinned st id'
  /\ isMessagePinned (clear st) id' = false.
Proof.
  unfold isMessagePinned, pinMessage, unpinMessage, clearPinnedMessages. simpl.
  split; [| split].
  - apply set_has_add.
  - apply set_has_delete.
  - reflexivity.
Qed.

(** X19. Pinning twice is pinning once (state and storage alike), and
    unpinning a message right after pinning it, when it was not pinned
    before, gives back the set of pins exactly as it was, order included. *)
Theorem pin_is_idempotent_and_undone_by_unpin (st : PinState) (id : string) :
  pin id (pin id st) = pin id st
  /\ (isMessagePinned st id = false ->
      pinnedMessageIds (unpin id (pin id st)) = pinnedMessageIds st).
Proof.
  split.
  - unfold pinMessage. simpl.
    assert (Hin : set_has (set_add (pinnedMessageIds st) (JString id)) (JString id) = true).
    { rewrite set_has_add, svz_strings, String.eqb_refl. reflexivity. }
    assert (Hadd : set_add (set_add (pinnedMessageIds st) (JString id)) (JString id)
                   = set_add (pinnedMessageIds st) (JString id)).
    { unfold set_add at 1. rewrite Hin. reflexivity. }
    rewrite Hadd. f_equal.
    unfold savePinnedMessages, setItem. f_equal. simpl.
    rewrite String.eqb_refl. simpl.
    induction (localStorage st) as [| [k v] ls IH]; [reflexivity |].
    simpl. destruct (String.eqb k key) eqn:E; simpl; [exact IH |].
    rewrite E. simpl. f_equal. exact IH.
  - unfold isMessagePinned, pinMessage, unpinMessage. simpl. intros Hno.
    unfold set_add. rewrite Hno. unfold set_delete.
    rewrite List.filter_app. simpl. rewrite String.eqb_refl. simpl.
    rewrite app_nil_r. apply set_delete_absent.
    apply set_has_false_string. exact Hno.
Qed.

Local Abbreviation run := (run_update json_stringify projectId).
Local Abbreviation does := (perform json_stringify projectId).
Local Abbreviation in_order := (calls_in_order json_stringify projectId).
Local Abbreviation in_one_event := (event json_stringify projectId).

(** *** One call, and calls that share an event *)

Lemma perform_mirrors c st :
  getItem key (localStorage (does c st))
  = Some (json_stringify (JArray (pinnedMessageIds (does c st)))).
Proof.
  destruct c; unfold perform, pinMessage, unpinMessage, clearPinnedMessages,
    savePinnedMessages; cbn [localStorage pinnedMessageIds];
    rewrite getItem_setItem, String.eqb_refl; reflexivity.
Qed.

Lemma save_other_keys pinnedIds storage k :
  k <> key ->
  getItem k (savePinnedMessages json_stringify projectId pinnedIds storage)
  = getItem k storage.
Proof.
  intros Hk. unfold savePinnedMessages. rewrite getItem_setItem.
  destruct (String.eqb key k) eqn:E; [| reflexivity].
  apply String.eqb_eq in E. congruence.
Qed.

Lemma run_update_other_keys u st k :
  k <> key -> getItem k (localStorage (run u st)) = getItem k (localStorage st).
Proof.
  intros Hk. destruct u; unfold run_update, pinMessage, unpinMessage;
    cbn [localStorage]; [apply save_other_keys; exact Hk .. | reflexivity].
Qed.

Lemma fold_run_other_keys q st k :
  k <> key ->
  getItem k (localStorage (fold_left (fun st u => run u st) q st))
  = getItem k (localStorage st).
Proof.
  intros Hk. revert st. induction q as [| u q IH]; intros st; [reflexivity |].
  simpl. rewrite IH. apply run_update_other_keys. exact Hk.
Qed.

Lemma run_update_pins u st st' :
  pinnedMessageIds st = pinnedMessageIds st' ->
  pinnedMessageIds (run u st) = pinnedMessageIds (run u st').
Proof.
  intros H. destruct u; unfold run_update, pinMessage, unpinMessage;
    cbn [pinnedMessageIds]; rewrite ?H; reflexivity.
Qed.

Lemma fold_run_pins q st st' :
  pinnedMessageIds st = pinnedMessageIds st' ->
  pinnedMessageIds (fold_left (fun st u => run u st) q st)
  = pinnedMessageIds (fold_left (fun st u => run u st) q st').
Proof.
  revert st st'. induction q as [| u q IH]; intros st st' H; [exact H |].
  simpl. apply IH. apply run_update_pins. exact H.
Qed.

Lemma perform_pins c st st' :
  pinnedMessageIds st = pinnedMessageIds st' ->
  pinnedMessageIds (does c st) = pinnedMessageIds (does c st').
Proof.
  intros H. destruct c; unfold perform, pinMessage, unpinMessage,
    clearPinnedMessages; cbn [pinnedMessageIds]; rewrite ?H; reflexivity.
Qed.

Lemma run_handed c st : is_clear c = false -> run (handed c) st = does c st.
Proof. destruct c; [reflexivity | reflexivity | discriminate]. Qed.

(** A deferred updater is queued as it is. *)
Lemma call_deferred eager c h :
  is_clear c = false ->
  queue h <> [] \/ eager = false ->
  call json_stringify projectId eager c h
  = mkPending (current h) (queue h ++ [handed c]).
Proof.
  intros Hc Hq. unfold call, setPinnedMessageIds.
  destruct c; try discriminate Hc; simpl;
    (destruct Hq as [Hq | ->]; [| reflexivity]);
    (destruct (queue h); [contradiction | rewrite andb_false_r; reflexivity]).
Qed.

(** Whichever way React runs the updater of [pinMessage] or [unpinMessage],
    at the render it has acted on the state the calls before it left. *)
Lemma render_call_updater eager c h :
  is_clear c = false ->
  render json_stringify projectId (call json_stringify projectId eager c h)
  = does c (render json_stringify projectId h).
Proof.
  intros Hc. destruct eager, (queue h) as [| u q] eqn:Hq.
  - destruct c; try discriminate Hc; unfold call, setPinnedMessageIds, render;
      rewrite Hq; reflexivity.
  - rewrite call_deferred by (auto; left; rewrite Hq; discriminate).
    unfold render. cbn [queue current]. rewrite fold_left_app. simpl.
    apply run_handed. exact Hc.
  - rewrite call_deferred by auto.
    unfold render. cbn [queue current]. rewrite fold_left_app. simpl.
    apply run_handed. exact Hc.
  - rewrite call_deferred by auto.
    unfold render. cbn [queue current]. rewrite fold_left_app. simpl.
    apply run_handed. exact Hc.
Qed.

(** [clearPinnedMessages] writes at the call; what is queued runs after. *)
Lemma render_call_clear eager h :
  pinnedMessageIds
    (render json_stringify projectId (call json_stringify projectId eager CallClear h))
  = []
  /\ localStorage
       (render json_stringify projectId (call json_stringify projectId eager CallClear h))
     = localStorage
         (fold_left (fun st u => run u st) (queue h)
            (mkPinState (pinnedMessageIds (current h))
               (savePinnedMessages json_stringify projectId []
                  (localStorage (current h))))).
Proof.
  unfold call, setPinnedMessageIds, render. cbn [is_updater].
  rewrite andb_false_r. cbn [andb queue current pinnedMessageIds localStorage].
  rewrite fold_left_app. simpl. split; reflexivity.
Qed.

Lemma in_order_snoc calls x h :
  in_order (calls ++ [x]) h
  = call json_stringify projectId (fst x) (snd x) (in_order calls h).
Proof. unfold calls_in_order. rewrite fold_left_app. reflexivity. Qed.

Lemma call_queue_nonempty eager c h :
  queue (call json_stringify projectId eager c h) <> [].
Proof.
  destruct c; unfold call, setPinnedMessageIds;
    match goal with |- context [if ?b then _ else _] => destruct b end;
    cbn [queue]; try discriminate; destruct (queue h); discriminate.
Qed.

Lemma in_order_queue_nonempty calls h :
  calls <> [] -> queue (in_order calls h) <> [].
Proof.
  destruct calls as [| x calls _] using rev_ind; [contradiction |].
  intros _. rewrite in_order_snoc. apply call_queue_nonempty.
Qed.

Lemma event_snoc_updater calls eager c st :
  is_clear c = false ->
  in_one_event (calls ++ [(eager, c)]) st = does c (in_one_event calls st).
Proof.
  intros Hc. unfold event. rewrite in_order_snoc. apply render_call_updater. exact Hc.
Qed.

Lemma event_single eager c st : in_one_event [(eager, c)] st = does c st.
Proof.
  destruct c; try (apply (event_snoc_updater [] eager); reflexivity).
  unfold event, calls_in_order, call, setPinnedMessageIds, render. cbn [is_updater].
  simpl. rewrite andb_false_r. reflexivity.
Qed.

Lemma event_pins_snoc calls eager c st :
  pinnedMessageIds (in_one_event (calls ++ [(eager, c)]) st)
  = pinnedMessageIds (does c (in_one_event calls st)).
Proof.
  destruct (is_clear c) eqn:Hc.
  - destruct c; try discriminate Hc. unfold event. rewrite in_order_snoc.
    apply render_call_clear.
  - rewrite event_snoc_updater by exact Hc. reflexivity.
Qed.

Lemma perform_is_set_list c st :
  is_set_list (pinnedMessageIds st) -> is_set_list (pinnedMessageIds (does c st)).
Proof.
  intros H. destruct c; simpl;
    [apply is_set_list_add | apply is_set_list_delete | exact I]; exact H.
Qed.

Lemma event_is_set_list calls st :
  is_set_list (pinnedMessageIds st) ->
  is_set_list (pinnedMessageIds (in_one_event calls st)).
Proof.
  intros H. induction calls as [| [eager c] calls IH] using rev_ind; [exact H |].
  rewrite event_pins_snoc. apply perform_is_set_list. exact IH.
Qed.

Lemma event_other_keys calls st k :
  k <> key ->
  getItem k (localStorage (in_one_event calls st)) = getItem k (localStorage st).
Proof.
  intros Hk. induction calls as [| [eager c] calls IH] using rev_ind; [reflexivity |].
  destruct (is_clear c) eqn:Hc.
  - destruct c; try discriminate Hc. unfold event. rewrite in_order_snoc.
    cbn [fst snd]. rewrite (proj2 (render_call_clear eager _)).
    rewrite fold_run_other_keys by exact Hk. cbn [localStorage].
    rewrite save_other_keys by exact Hk.
    rewrite <- IH. unfold event, render.
    rewrite fold_run_other_keys by exact Hk. reflexivity.
  - rewrite event_snoc_updater by exact Hc.
    rewrite <- IH. destruct c; try discriminate Hc; unfold perform, pinMessage,
      unpinMessage; cbn [localStorage]; apply save_other_keys; exact Hk.
Qed.

(** What the mount effect makes of an entry that holds a serialised set. *)
Lemma load_written pinnedIds storage shown :
  getItem key storage = Some (json_stringify (JArray pinnedIds)) ->
  is_set_list pinnedIds ->
  json_parse (json_stringify (JArray pinnedIds)) = Some (JArray pinnedIds) ->
  json_stringify (JArray pinnedIds) <> "" ->
  load (mkPinState shown storage) = (mkPinState pinnedIds storage, []).
Proof.
  intros Hget Hset Hrt Hne. unfold load_pins. cbn [localStorage]. rewrite Hget.
  apply String.eqb_neq in Hne. rewrite Hne, Hrt. simpl.
  rewrite (fold_add_set_list pinnedIds [] Hset). reflexivity.
Qed.

(** X20. [localStorage] mirrors the pins after an event in which the last
    call is [pinMessage] or [unpinMessage], and after an event that makes a
    single call, [clearPinnedMessages] included: the entry
    [pinned-messages-<projectId>] then holds the serialised array of exactly
    the pins in the state after the render, however React ran the updaters.
    A single call in its event gives what the function of that name above
    gives.  And no event changes any other entry of [localStorage]. *)
Theorem storage_mirrors_pins (calls : list (bool * PinCall)) (eager : bool)
    (c : PinCall) (st : PinState) :
  calls = [] \/ is_clear c = false ->
  getItem key (localStorage (event json_stringify projectId (calls ++ [(eager, c)]) st))
    = Some (json_stringify
              (JArray (pinnedMessageIds
                         (event json_stringify projectId (calls ++ [(eager, c)]) st))))
  /\ (forall id,
        event json_stringify projectId [(eager, CallPin id)] st = pin id st
        /\ event json_stringify projectId [(eager, CallUnpin id)] st = unpin id st
        /\ event json_stringify projectId [(eager, CallClear)] st = clear st)
  /\ (forall batch k,
        k <> key ->
        getItem k (localStorage (event json_stringify projectId batch st))
        = getItem k (localStorage st)).
Proof.
  intros Hlast. split; [| split].
  - destruct Hlast as [-> | Hc].
    + simpl. rewrite event_single. apply perform_mirrors.
    + rewrite event_snoc_updater by exact Hc. apply perform_mirrors.
  - intros id. repeat split; apply event_single.
  - intros batch k. apply event_other_keys.
Qed.

(** X21. Pins survive a reload after such an event.  When the last call of
    the event is [pinMessage] or [unpinMessage], or the event makes a single
    call, and [JSON.parse] gives back the array that [JSON.stringify] wrote,
    the mount effect run on that [localStorage], whatever pins the state
    showed before, restores exactly the pins the state had after the event,
    in the same order, and logs nothing. *)
Theorem pins_survive_reload (calls : list (bool * PinCall)) (eager : bool)
    (c : PinCall) (st st' : PinState) (shown : list JValue) :
  is_set_list (pinnedMessageIds st) ->
  calls = [] \/ is_clear c = false ->
  st' = event json_stringify projectId (calls ++ [(eager, c)]) st ->
  json_parse (json_stringify (JArray (pinnedMessageIds st')))
    = Some (JArray (pinnedMessageIds st')) ->
  json_stringify (JArray (pinnedMessageIds st')) <> "" ->
  load_pins json_parse code_points projectId (mkPinState shown (localStorage st'))
  = (st', []).
Proof.
  intros Hset Hlast -> Hrt Hne.
  set (st' := event json_stringify projectId (calls ++ [(eager, c)]) st) in *.
  assert (Hget : getItem key (localStorage st')
                 = Some (json_stringify (JArray (pinnedMessageIds st')))).
  { subst st'. destruct Hlast as [-> | Hc].
    - simpl. rewrite event_single. apply perform_mirrors.
    - rewrite event_snoc_updater by exact Hc. apply perform_mirrors. }
  rewrite (load_written (pinnedMessageIds st') (localStorage st') shown Hget
             (event_is_set_list _ st Hset) Hrt Hne).
  destruct st'. reflexivity.
Qed.

(** X25. A [clearPinnedMessages] called in the same event after a
    [pinMessage] or [unpinMessage] whose updater React has queued (as it does
    for every call but the first of the event) is overwritten in
    [localStorage]: after the render no message is pinned, but the entry
    [pinned-messages-<projectId>] holds the pins as they were just before
    the clear, so that the next mount brings them back. *)
Theorem batched_clear_is_overwritten (calls : list (bool * PinCall))
    (eager eager' : bool) (c : PinCall) (st before after : PinState) :
  is_clear c = false ->
  calls <> [] \/ eager = false ->
  before = event json_stringify projectId (calls ++ [(eager, c)]) st ->
  after = event json_stringify projectId
            (calls ++ [(eager, c); (eager', CallClear)]) st ->
  pinnedMessageIds after = []
  /\ getItem key (localStorage after)
     = Some (json_stringify (JArray (pinnedMessageIds before)))
  /\ (is_set_list (pinnedMessageIds st) ->
      json_parse (json_stringify (JArray (pinnedMessageIds before)))
        = Some (JArray (pinnedMessageIds before)) ->
      json_stringify (JArray (pinnedMessageIds before)) <> "" ->
      load_pins json_parse code_points projectId after
      = (mkPinState (pinnedMessageIds before) (localStorage after), [])).
Proof.
  intros Hc Hq -> ->.
  set (h := in_order calls (mkPending st [])).
  assert (Hh : queue h <> [] \/ eager = false).
  { destruct Hq as [Hq | Hq]; [left | right; exact Hq].
    apply in_order_queue_nonempty. exact Hq. }
  assert (Hbefore : in_one_event (calls ++ [(eager, c)]) st
                    = does c (render json_stringify projectId h)).
  { apply event_snoc_updater. exact Hc. }
  assert (Hafter : in_one_event (calls ++ [(eager, c); (eager', CallClear)]) st
                   = render json_stringify projectId
                       (call json_stringify projectId eager' CallClear
                          (mkPending (current h) (queue h ++ [handed c])))).
  { unfold event.
    replace (calls ++ [(eager, c); (eager', CallClear)])
      with ((calls ++ [(eager, c)]) ++ [(eager', CallClear)])
      by (rewrite <- app_assoc; reflexivity).
    rewrite !in_order_snoc. cbn [fst snd]. fold h.
    rewrite (call_deferred eager c h Hc Hh). reflexivity. }
  rewrite Hbefore, Hafter.
  destruct (render_call_clear eager' (mkPending (current h) (queue h ++ [handed c])))
    as [Hpins Hstore].
  assert (Hget : getItem key
                   (localStorage
                      (render json_stringify projectId
                         (call json_stringify projectId eager' CallClear
                            (mkPending (current h) (queue h ++ [handed c])))))
                 = Some (json_stringify
                           (JArray (pinnedMessageIds
                                      (does c (render json_stringify projectId h)))))).
  { rewrite Hstore. cbn [queue current]. rewrite fold_left_app. simpl.
    rewrite run_handed by exact Hc. rewrite perform_mirrors.
    do 3 f_equal. apply perform_pins. apply fold_run_pins. reflexivity. }
  split; [exact Hpins |]. split; [exact Hget |].
  intros Hset Hrt Hne.
  set (after := render json_stringify projectId
                  (call json_stringify projectId eager' CallClear
                     (mkPending (current h) (queue h ++ [handed c])))) in *.
  assert (Hshape : after = mkPinState (pinnedMessageIds after) (localStorage after))
    by (destruct after; reflexivity).
  rewrite Hshape at 1.
  apply load_written; try assumption.
  rewrite <- Hbefore. apply event_is_set_list. exact Hset.
Qed.

End PinnedMessagesFacts.

Lemma pin_is_idempotent_and_undone_by_unpin_witness :
  pinnedMessageIds
    (unpinMessage demo_stringify "demo" "m2"
       (pinMessage demo_stringify "demo" "m2" (mkPinState [JString "m1"] [])))
  = [JString "m1"].
Proof.
  apply (proj2 (pin_is_idempotent_and_undone_by_unpin demo_stringify "demo"
                  (mkPinState [JString "m1"] []) "m2")).
  reflexivity.
Defined.

Lemma storage_mirrors_pins_witness :
  pinnedMessageIds
    (event demo_stringify "demo" [(true, CallPin "m2"); (false, CallClear); (false, CallPin "m1")]
       (mkPinState [] []))
  = [JString "m1"]
  /\ getItem "pinned-messages-demo"
       (localStorage
          (event demo_stringify "demo"
             [(true, CallPin "m2"); (false, CallClear); (false, CallPin "m1")]
             (mkPinState [] [])))
     = Some (demo_stringify (JArray [JString "m1"])).
Proof.
  split; [reflexivity |].
  apply (proj1 (storage_mirrors_pins demo_stringify "demo"
                  [(true, CallPin "m2"); (false, CallClear)] false (CallPin "m1")
                  (mkPinState [] []) (or_intror eq_refl))).
Defined.

Lemma pins_survive_reload_witness :
  load_pins demo_pins_parse demo_code_points "demo"
    (mkPinState [JString "old"]
       (localStorage
          (event demo_stringify "demo" [(true, CallClear); (false, CallPin "m1")]
             (mkPinState [JString "m3"] []))))
  = (event demo_stringify "demo" [(true, CallClear); (false, CallPin "m1")]
       (mkPinState [JString "m3"] []), []).
Proof.
  apply (pins_survive_reload demo_pins_parse demo_stringify demo_code_points "demo"
           [(true, CallClear)] false (CallPin "m1") (mkPinState [JString "m3"] [])).
  - simpl. split; [intros y [] | exact I].
  - right. reflexivity.
  - reflexivity.
  - reflexivity.
  - discriminate.
Defined.

Lemma batched_clear_is_overwritten_witness :
  pinnedMessageIds
    (event demo_stringify "demo"
       [(true, CallPin "m1"); (true, CallUnpin "m2"); (true, CallClear)]
       (mkPinState [] []))
  = []
  /\ getItem "pinned-messages-demo"
       (localStorage
          (event demo_stringify "demo"
             [(true, CallPin "m1"); (true, CallUnpin "m2"); (true, CallClear)]
             (mkPinState [] [])))
     = Some (demo_stringify (JArray [JString "m1"]))
  /\ load_pins demo_pins_parse demo_code_points "demo"
       (event demo_stringify "demo"
          [(true, CallPin "m1"); (true, CallUnpin "m2"); (true, CallClear)]
          (mkPinState [] []))
     = (mkPinState [JString "m1"]
          [("pinned-messages-demo", demo_stringify (JArray [JString "m1"]))], []).
Proof.
  assert (Hne : [(true, CallPin "m1")] <> @nil (bool * PinCall)) by discriminate.
  destruct (batched_clear_is_overwritten demo_pins_parse demo_stringify
              demo_code_points "demo" [(true, CallPin "m1")] true true (CallUnpin "m2")
              (mkPinState [] [])
              (event demo_stringify "demo"
                 [(true, CallPin "m1"); (true, CallUnpin "m2")] (mkPinState [] []))
              (event demo_stringify "demo"
                 [(true, CallPin "m1"); (true, CallUnpin "m2"); (true, CallClear)]
                 (mkPinState [] []))
              eq_refl (or_introl Hne) eq_refl eq_refl) as (H1 & H2 & H3).
  split; [exact H1 |]. split; [exact H2 |].
  apply H3; [exact I | vm_compute; reflexivity | vm_compute; discriminate].
Defined.

Section PinnedLoadFacts.

Variable json_parse : string -> option JValue.
Variable code_points : string -> list string.
Variable projectId : string.

Local Abbreviation load := (load_pins json_parse code_points projectId).
Local Abbreviation key := (storageKey projectId).

(** X22. What the mount effect does with a stored value it cannot use.  With
    nothing stored under the project's key, or the empty string, the pins in
    the state stay as they are, those loaded for another project included.
    A value that does not parse, or that parses to a number, a boolean or an
    object, is reported by one line on the console and the pins stay as they
    are.  The JSON text [null] empties the pins.  In no case is
    [localStorage] written. *)
Theorem unusable_stored_pins (st : PinState) :
  (getItem key (localStorage st) = None \/ getItem key (localStorage st) = Some "" ->
   load st = (st, []))
  /\ (forall stored,
        getItem key (localStorage st) = Some stored ->
        stored <> "" ->
        json_parse stored = None
        \/ (exists b, json_parse stored = Some (JBool b))
        \/ (exists x, json_parse stored = Some (JNumber x))
        \/ (exists fields, json_parse stored = Some (JObject fields)) ->
        load st = (st, [ConsoleError "Failed to load pinned messages:"]))
  /\ (forall stored,
        getItem key (localStorage st) = Some stored ->
        stored <> "" ->
        json_parse stored = Some JNull ->
        load st = (mkPinState [] (localStorage st), []))
  /\ localStorage (fst (load st)) = localStorage st.
Proof.
  unfold load_pins. split; [| split; [| split]].
  - intros [-> | ->]; reflexivity.
  - intros stored -> Hne Hcase. apply String.eqb_neq in Hne. rewrite Hne.
    destruct Hcase as [-> | [[b ->] | [[x ->] | [fields ->]]]]; reflexivity.
  - intros stored -> Hne ->. apply String.eqb_neq in Hne. rewrite Hne. reflexivity.
  - destruct (getItem key (localStorage st)) as [stored |]; [| reflexivity].
    destruct (String.eqb stored ""); [reflexivity |].
    destruct (json_parse stored ≫= new_Set code_points); reflexivity.
Qed.

End PinnedLoadFacts.

Lemma unusable_stored_pins_witness :
  load_pins demo_pins_parse demo_code_points "demo"
    (mkPinState [JString "m1"] [("pinned-messages-demo", "7")])
  = (mkPinState [JString "m1"] [("pinned-messages-demo", "7")],
     [ConsoleError "Failed to load pinned messages:"]).
Proof.
  apply (proj1 (proj2 (unusable_stored_pins demo_pins_parse demo_code_points "demo"
                         (mkPinState [JString "m1"] [("pinned-messages-demo", "7")])))
           "7").
  - reflexivity.
  - discriminate.
  - right. right. left. exists JS.one. reflexivity.
Defined.

(** X23. [getPinnedMessages] keeps exactly the messages whose id is pinned;
    and when the messages have distinct ids, there are never more of them
    than [pinnedCount]. *)
Theorem pinned_messages_within_count {Message : Type} (message_id : Message -> string)
    (st : PinState) (messages : list Message) :
  (forall m, In m (getPinnedMessages message_id st messages)
             <-> In m messages /\ isMessagePinned st (message_id m) = true)
  /\ (List.NoDup (map message_id messages) ->
      (length (getPinnedMessages message_id st messages) <= pinnedCount st)%nat).
Proof.
  unfold getPinnedMessages, pinnedCount. split.
  - intros m. apply List.filter_In.
  - intros Hnd.
    set (r := List.filter (fun m => isMessagePinned st (message_id m)) messages).
    rewrite <- (length_map message_id r), <- (length_map JString (map message_id r)).
    apply NoDup_incl_length.
    + apply NoDup_map_JString. apply NoDup_map_filter. exact Hnd.
    + intros x Hx. apply in_map_iff in Hx as (i & <- & Hi).
      apply in_map_iff in Hi as (m & <- & Hm). apply List.filter_In in Hm as [_ Hp].
      unfold isMessagePinned, set_has in Hp.
      apply existsb_exists in Hp as (y & Hy & Hsame).
      apply svz_string_l in Hsame. subst y. exact Hy.
Qed.

Lemma pinned_messages_within_count_witness :
  (length (getPinnedMessages demo_id (mkPinState [JString "m2"; JString "zz"] [])
             demo_messages) <= 2)%nat.
Proof.
  apply (proj2 (pinned_messages_within_count demo_id
                  (mkPinState [JString "m2"; JString "zz"] []) demo_messages)).
  vm_compute. repeat constructor; simpl; intuition discriminate.
Defined.

Section PinButtonFacts.

Variable json_stringify : JValue -> string.
Variable projectId : string.

Local Abbreviation click := (click_pin json_stringify projectId).

(** X24. The pin button toggles: a click pins the message if it was not
    pinned and unpins it if it was, and touches no other message; so two
    clicks on the same message leave every message pinned or not as it
    was. *)
Theorem pin_button_toggles (st : PinState) (id id' : string) :
  isMessagePinned (click id st) id'
    = (if String.eqb id' id then negb (isMessagePinned st id)
       else isMessagePinned st id')
  /\ isMessagePinned (click id (click id st)) id' = isMessagePinned st id'.
Proof.
  assert (H1 : forall s i',
             isMessagePinned (click id s) i'
             = if String.eqb i' id then negb (isMessagePinned s id)
               else isMessagePinned s i').
  { intros s i'. unfold click_pin, handlePin.
    assert (Hp : isMessagePinned (pinMessage json_stringify projectId id s) i'
                 = String.eqb i' id || isMessagePinned s i')
      by (unfold isMessagePinned, pinMessage; simpl; apply set_has_add).
    assert (Hu : isMessagePinned (unpinMessage json_stringify projectId id s) i'
                 = negb (String.eqb i' id) && isMessagePinned s i')
      by (unfold isMessagePinned, unpinMessage; simpl; apply set_has_delete).
    destruct (isMessagePinned s id) eqn:E.
    - rewrite Hu. destruct (String.eqb i' id) eqn:Ei; [reflexivity |]. reflexivity.
    - rewrite Hp. destruct (String.eqb i' id) eqn:Ei; [reflexivity |]. reflexivity. }
  split; [apply H1 |].
  rewrite H1. destruct (String.eqb id' id) eqn:E.
  - rewrite H1, String.eqb_refl, negb_involutive.
    apply String.eqb_eq in E. congruence.
  - rewrite H1, E. reflexivity.
Qed.

End PinButtonFacts.
